(** * tree_gen.py: the exclusion rules and the tree renderer

    A shallow embedding of [TreeGenerator] (src/tree_gen.py) and the
    properties its specification states about it.

    Strings are Python [str] values held as UTF-8 byte strings: substring
    search, suffix tests, concatenation and lexicographic comparison agree
    on both views.  [str.lower] is a Unicode table that is not reproduced:
    the development is parametric in it (Section variable [lower]), and
    the closed examples instantiate it with ASCII lowercasing. *)

From Stdlib Require Import ZArith Ascii String List Lia Permutation DecimalString.
From stdpp Require Import base strings gmap list sorting.

Local Open Scope string_scope.
Local Open Scope Z_scope.
Local Open Scope list_scope.
Set Warnings "-register-all".


(** ** Python [str] operations used by the program *)

Module Str.

(** [pat in s] *)
Fixpoint contains (pat s : string) : bool :=
  String.prefix pat s ||
  match s with
  | EmptyString => false
  | String _ s' => contains pat s'
  end.

(** [s.endswith(pat)] *)
Definition endswith (s pat : string) : bool :=
  let n := String.length s in
  let m := String.length pat in
  (m <=? n)%nat && String.eqb (String.substring (n - m) m s) pat.

(** [s.replace(a, b)] for one-character [a] and [b] *)
Fixpoint replace (a b : ascii) (s : string) : string :=
  match s with
  | EmptyString => EmptyString
  | String c s' => String (if Ascii.eqb c a then b else c) (replace a b s')
  end.

(** [s.rfind(c)] for a one-character [c]: the last index, or -1 *)
Fixpoint rfind (c : ascii) (s : string) : Z :=
  match s with
  | EmptyString => -1
  | String a s' =>
      let r := rfind c s' in
      if 0 <=? r then r + 1 else if Ascii.eqb a c then 0 else -1
  end.

(** [sep.join(l)] *)
Definition join (sep : string) (l : list string) : string :=
  String.concat sep l.

(** [len(s)]: the number of code points, that is of bytes that do not
    continue a UTF-8 sequence *)
Definition starts_char (c : ascii) : bool :=
  let n := nat_of_ascii c in
  negb ((128 <=? n) && (n <? 192))%nat.

Fixpoint len (s : string) : nat :=
  match s with
  | EmptyString => 0%nat
  | String c s' => ((if starts_char c then 1 else 0) + len s')%nat
  end.

(** ASCII lowercasing, the instance of [str.lower] used in examples *)
Definition lower_char (c : ascii) : ascii :=
  let n := nat_of_ascii c in
  if ((65 <=? n) && (n <=? 90))%nat then ascii_of_nat (n + 32) else c.

Fixpoint lower_ascii (s : string) : string :=
  match s with
  | EmptyString => EmptyString
  | String c s' => String (lower_char c) (lower_ascii s')
  end.

End Str.

(** ** Exceptions and results *)

Inductive exn :=
| ValueError (msg : string)
| PermissionError
| NotADirectoryError
| FileNotFoundError
| RecursionError
| UnicodeEncodeError.

Inductive Result (A : Type) :=
| Ok (a : A)
| Raise (e : exn).
Arguments Ok {A} a.
Arguments Raise {A} e.

(** ** The filesystem as the program sees it

    A directory lists its children by name, in the order [iterdir] yields
    them.  [readable = false] stands for a directory that cannot be read:
    the [try] block of [_build_tree] raises [PermissionError] on it,
    either because the listing itself is denied, or because the directory
    can be listed but not searched, so that the [stat] behind [is_dir] in
    the sort key is denied for its entries.  The children of a readable
    directory are entries that can be examined: [is_dir] answers for them
    and does not raise. *)

Inductive node :=
| File
| Dir (readable : bool) (children : list (string * node)).

(** A [pathlib.Path]: its components below the filesystem anchor, and what
    the snapshot has at that place ([None]: nothing). *)
Record Path := MkPath { parts : list string; target : option node }.

Definition name (p : Path) : string := List.last (parts p) "".

Definition is_dir (p : Path) : bool :=
  match target p with
  | Some (Dir _ _) => true
  | _ => false
  end.

Definition exists_ (p : Path) : bool :=
  match target p with
  | Some _ => true
  | None => false
  end.

Definition child (p : list string) (c : string * node) : Path :=
  {| parts := p ++ [fst c]; target := Some (snd c) |}.

(** [path.iterdir()], taken together with the [is_dir] calls of the sort
    key that consumes it inside the same [try] block *)
Definition iterdir (p : Path) : Result (list Path) :=
  match target p with
  | None => Raise FileNotFoundError
  | Some File => Raise NotADirectoryError
  | Some (Dir false _) => Raise PermissionError
  | Some (Dir true cs) => Ok (map (child (parts p)) cs)
  end.

(** [PurePath.suffix]: the final dot-prefixed part of the name *)
Definition suffix (p : Path) : string :=
  let nm := name p in
  let i := Str.rfind "." nm in
  if (0 <? i) && (i <? Z.of_nat (String.length nm) - 1)
  then String.substring (Z.to_nat i) (String.length nm - Z.to_nat i) nm
  else "".

(** [path.relative_to(root)]: [None] stands for the [ValueError] raised
    when [path] is not beneath [root]. *)
Fixpoint strip_prefix (pre l : list string) : option (list string) :=
  match pre, l with
  | [], _ => Some l
  | a :: pre', b :: l' => if String.eqb a b then strip_prefix pre' l' else None
  | _ :: _, [] => None
  end.

Definition relative_to (path root : Path) : option (list string) :=
  strip_prefix (parts root) (parts path).

(** [str(relative_path)] *)
Definition str_of_parts (l : list string) : string :=
  match l with
  | [] => "."
  | _ => Str.join "/" l
  end.

(** ** Configuration *)

(** The override dictionary given to the constructor: [None] is an absent
    key. *)
Record Config := MkConfig {
  cfg_exclude_dirs : option (list string);
  cfg_exclude_files : option (list string);
  cfg_exclude_patterns : option (list string);
  cfg_include_extensions : option (option (list string));
  cfg_max_depth : option (option Z);
  cfg_exclude_path_patterns : option (list string)
}.

Definition empty_config : Config := MkConfig None None None None None None.

Module DEFAULT_CONFIG.
Definition exclude_dirs : list string :=
  [ "node_modules"; "vendor";
    "dist"; "build"; ".expo"; "android/app/build";
    "android/.gradle"; "android/.kotlin"; "android/app/.cxx";
    "ios/build"; "ios/Pods";
    "__pycache__"; ".pytest_cache"; ".mypy_cache";
    ".next"; "coverage"; "temp-apk";
    ".git"; ".vscode"; ".idea"; ".DS_Store";
    "venv"; "env";
    ".gradle"; ".cxx"; "build";
    ".expo-shared"; "web-build" ].
Definition exclude_files : list string :=
  [ ".DS_Store"; "Thumbs.db"; "desktop.ini";
    "package-lock.json"; "yarn.lock"; "pnpm-lock.yaml";
    ".env"; ".env.local"; ".env.production";
    "google-services.json"; "GoogleService-Info.plist";
    ".gitignore"; ".eslintcache";
    "debug.keystore";
    "gradle-wrapper.jar"; "gradlew"; "gradlew.bat" ].
Definition exclude_patterns : list string :=
  [ ".pyc"; ".pyo"; ".class"; ".o";
    ".log";
    ".zip"; ".tar"; ".gz"; ".apk"; ".ipa"; ".aab";
    ".bin"; ".lock"; ".probe";
    ".so"; ".dex" ].
Definition include_extensions : option (list string) := None.
Definition max_depth : option Z := None.
Definition exclude_path_patterns : list string :=
  [ "android/app/.cxx";
    "android/.gradle";
    "android/app/build";
    ".expo/web/cache";
    "android/gradle/wrapper" ].
End DEFAULT_CONFIG.

Record TreeGenerator := MkTreeGenerator {
  exclude_dirs : gset string;
  exclude_files : gset string;
  exclude_patterns : list string;
  exclude_path_patterns : list string;
  include_extensions : option (list string);
  max_depth : option Z
}.

(** [TreeGenerator.__init__]: the defaults, overridden key by key *)
Definition __init__ (config : Config) : TreeGenerator :=
  {| exclude_dirs :=
       list_to_set (default DEFAULT_CONFIG.exclude_dirs (cfg_exclude_dirs config));
     exclude_files :=
       list_to_set (default DEFAULT_CONFIG.exclude_files (cfg_exclude_files config));
     exclude_patterns :=
       default DEFAULT_CONFIG.exclude_patterns (cfg_exclude_patterns config);
     exclude_path_patterns :=
       default DEFAULT_CONFIG.exclude_path_patterns (cfg_exclude_path_patterns config);
     include_extensions :=
       default DEFAULT_CONFIG.include_extensions (cfg_include_extensions config);
     max_depth :=
       default DEFAULT_CONFIG.max_depth (cfg_max_depth config) |}.

(** Python truthiness of the two optional settings *)
Definition truthy_list (o : option (list string)) : bool :=
  match o with
  | Some (_ :: _) => true
  | _ => false
  end.

Definition truthy_int (o : option Z) : bool :=
  match o with
  | Some d => negb (d =? 0)
  | None => false
  end.

(** ** The exclusion rules *)

Definition _should_exclude_by_path (self : TreeGenerator) (path root : Path) : bool :=
  match relative_to path root with
  | Some relative_path =>
      let path_str := Str.replace "\" "/" (str_of_parts relative_path) in
      existsb (fun pattern => Str.contains pattern path_str)
              (exclude_path_patterns self)
  | None => false
  end.

Definition _should_exclude (self : TreeGenerator) (path : Path) (root : option Path) : bool :=
  if match root with
     | Some r => _should_exclude_by_path self path r
     | None => false
     end
  then true
  else if is_dir path
  then bool_decide (name path ∈ exclude_dirs self)
  else if bool_decide (name path ∈ exclude_files self)
  then true
  else if existsb (fun pattern => Str.endswith (name path) pattern)
                  (exclude_patterns self)
  then true
  else if truthy_list (include_extensions self)
  then negb (existsb (String.eqb (suffix path)) (default [] (include_extensions self)))
  else false.

(** ** [sorted(iterable, key=...)]

    Python's [sorted] is a stable sort that compares keys with [<] only.
    Insertion from the right, placing an element before the first one whose
    key is not smaller, is the stable sort. *)

Section Sorted.
Context {A K : Type} (lt : K -> K -> bool) (key : A -> K).

Fixpoint insert_sorted (x : A) (l : list A) : list A :=
  match l with
  | [] => [x]
  | y :: l' =>
      if lt (key y) (key x) then y :: insert_sorted x l' else x :: y :: l'
  end.

Definition sorted (l : list A) : list A := foldr insert_sorted [] l.
End Sorted.

(** [<] on the tuples [(bool, str)] used as sort keys *)
Definition key_lt (k1 k2 : bool * string) : bool :=
  match fst k1, fst k2 with
  | false, true => true
  | true, false => false
  | _, _ => String.ltb (snd k1) (snd k2)
  end.

(** [enumerate(l)] *)
Definition enumerate {A} (l : list A) : list (nat * A) :=
  combine (seq 0 (length l)) l.

(** ** The renderer *)

Section Renderer.
(** [str.lower] *)
Variable lower : string -> string.

(** [lambda p: (not p.is_dir(), p.name.lower())] *)
Definition sort_key (p : Path) : bool * string :=
  (negb (is_dir p), lower (name p)).

(** The depth guard of [_build_tree] *)
Definition depth_reached (self : TreeGenerator) (depth : Z) : bool :=
  truthy_int (max_depth self) &&
  match max_depth self with
  | Some d => d <=? depth
  | None => false
  end.

(** The [for] loop: [items] pairs each entry with its index; an
    exception raised by the body ends the loop. *)
Fixpoint for_each {A} (body : nat -> A -> list string -> Result (list string))
    (items : list (nat * A)) (lines : list string) : Result (list string) :=
  match items with
  | [] => Ok lines
  | (i, item) :: rest =>
      match body i item lines with
      | Ok lines' => for_each body rest lines'
      | Raise e => Raise e
      end
  end.

(** The line printed for [item] *)
Definition current_prefix (is_last : bool) : string :=
  if is_last then "└── " else "├── ".
Definition next_prefix (is_last : bool) : string :=
  if is_last then "    " else "│   ".
Definition display_name (item : Path) : string :=
  if is_dir item then name item +:+ "/" else name item.

(** The body of the loop; [recur] is the recursive call on [item]. *)
Definition loop_body {A} (path_of : A -> Path)
    (recur : A -> string -> list string -> Z -> Result (list string))
    (len : nat) (prefix : string) (depth : Z)
    (i : nat) (item : A) (lines : list string) : Result (list string) :=
  let is_last := (i =? len - 1)%nat in
  let lines :=
    (lines ++ [prefix +:+ current_prefix is_last +:+ display_name (path_of item)])%list in
  if is_dir (path_of item)
  then recur item (prefix +:+ next_prefix is_last) lines (depth + 1)
  else Ok lines.

(** [_build_tree] at a place holding the node [n].  The recursion is on
    the snapshot: every child is paired with the recursive call on it
    before the listing is sorted and filtered; [_build_tree_eq] below
    gives the equation in the shape of the source. *)
Fixpoint build_node (self : TreeGenerator) (root : Path) (n : node)
    (here : list string) (prefix : string) (lines : list string) (depth : Z)
    {struct n} : Result (list string) :=
  if depth_reached self depth then Ok lines else
  match n with
  | File => Raise NotADirectoryError
  | Dir false _ => Ok lines
  | Dir true cs =>
      let items :=
        map (fun c => (child here c, build_node self root (snd c) (here ++ [fst c])%list)) cs in
      let contents := sorted key_lt (fun it => sort_key (fst it)) items in
      let contents :=
        List.filter (fun it => negb (_should_exclude self (fst it) (Some root))) contents in
      for_each (loop_body fst (fun it => snd it) (length contents) prefix depth)
               (enumerate contents) lines
  end.

Definition _build_tree (self : TreeGenerator) (path : Path) (prefix : string)
    (lines : list string) (depth : Z) (root : Path) : Result (list string) :=
  if depth_reached self depth then Ok lines else
  match target path with
  | None => Raise FileNotFoundError
  | Some n => build_node self root n (parts path) prefix lines depth
  end.

(** *** The entries the renderer visits

    [walk] follows [_build_tree] and records, for every line appended,
    the entry it stands for; [_build_tree_walk] below shows that the
    lines of [_build_tree] are exactly the lines of these visits. *)

Record visit := MkVisit {
  v_item : Path;
  v_depth : Z;
  v_prefix : string;
  v_last : bool
}.

Definition v_line (v : visit) : string :=
  v_prefix v +:+ current_prefix (v_last v) +:+ display_name (v_item v).

Definition walk_step {A} (path_of : A -> Path)
    (recur : A -> string -> Z -> list visit)
    (len : nat) (prefix : string) (depth : Z) (ix : nat * A) : list visit :=
  let is_last := (fst ix =? len - 1)%nat in
  MkVisit (path_of (snd ix)) depth prefix is_last ::
  (if is_dir (path_of (snd ix))
   then recur (snd ix) (prefix +:+ next_prefix is_last) (depth + 1)
   else []).

Fixpoint walk_node (self : TreeGenerator) (root : Path) (n : node)
    (here : list string) (prefix : string) (depth : Z) {struct n} : list visit :=
  if depth_reached self depth then [] else
  match n with
  | Dir true cs =>
      let items :=
        map (fun c => (child here c, walk_node self root (snd c) (here ++ [fst c])%list)) cs in
      let contents := sorted key_lt (fun it => sort_key (fst it)) items in
      let contents :=
        List.filter (fun it => negb (_should_exclude self (fst it) (Some root))) contents in
      flat_map (walk_step fst (fun it => snd it) (length contents) prefix depth)
               (enumerate contents)
  | _ => []
  end.

Definition walk (self : TreeGenerator) (path : Path) (prefix : string)
    (depth : Z) (root : Path) : list visit :=
  match target path with
  | Some n => walk_node self root n (parts path) prefix depth
  | None => []
  end.

(** [contents] as the source computes it from a successful listing *)
Definition contents_of (self : TreeGenerator) (root : Path) (listing : list Path)
    : list Path :=
  List.filter (fun item => negb (_should_exclude self item (Some root)))
              (sorted key_lt sort_key listing).

(** The snapshot: what a directory argument resolves to *)
Record FileSystem := MkFileSystem { resolve : string -> Path }.

(** [generate_tree] without an output file: the lines, then the text *)
Definition generate_lines (self : TreeGenerator) (fs : FileSystem)
    (directory : string) : Result (list string) :=
  let root_path := resolve fs directory in
  if negb (exists_ root_path)
  then Raise (ValueError ("Directory '" +:+ directory +:+ "' does not exist"))
  else
    let tree_lines := [name root_path +:+ "/"] in
    _build_tree self root_path "" tree_lines 0 root_path.

Definition generate_tree (self : TreeGenerator) (fs : FileSystem)
    (directory : string) : Result string :=
  match generate_lines self fs directory with
  | Ok tree_lines => Ok (Str.join (String (ascii_of_nat 10) "") tree_lines)
  | Raise e => Raise e
  end.

End Renderer.

(** ** The interpreter's recursion limit

    [_build_tree] calls itself once for every directory on the way down,
    and the interpreter raises [RecursionError] when calls nest too deep;
    nothing in the program catches it.  [stack] is the number of nested
    calls of [_build_tree] the interpreter still has room for, the calls
    each of them makes counted in.  The functions above are the renderer
    without this limit; [build_node_within_enough] below shows when the
    two agree. *)

Fixpoint build_node_within (stack : nat) (lower : string -> string)
    (self : TreeGenerator) (root : Path) (n : node)
    (here : list string) (prefix : string) (lines : list string) (depth : Z)
    {struct n} : Result (list string) :=
  match stack with
  | O => Raise RecursionError
  | S stack' =>
      if depth_reached self depth then Ok lines else
      match n with
      | File => Raise NotADirectoryError
      | Dir false _ => Ok lines
      | Dir true cs =>
          let items :=
            map (fun c => (child here c,
                           build_node_within stack' lower self root (snd c)
                             (here ++ [fst c])%list)) cs in
          let contents := sorted key_lt (fun it => sort_key lower (fst it)) items in
          let contents :=
            List.filter (fun it => negb (_should_exclude self (fst it) (Some root)))
                        contents in
          for_each (loop_body fst (fun it => snd it) (length contents) prefix depth)
                   (enumerate contents) lines
      end
  end.

Definition _build_tree_within (stack : nat) (lower : string -> string)
    (self : TreeGenerator) (path : Path) (prefix : string)
    (lines : list string) (depth : Z) (root : Path) : Result (list string) :=
  match stack with
  | O => Raise RecursionError
  | S _ =>
      if depth_reached self depth then Ok lines else
      match target path with
      | None => Raise FileNotFoundError
      | Some n => build_node_within stack lower self root n (parts path) prefix lines depth
      end
  end.

Definition generate_lines_within (stack : nat) (lower : string -> string)
    (self : TreeGenerator) (fs : FileSystem) (directory : string)
    : Result (list string) :=
  let root_path := resolve fs directory in
  if negb (exists_ root_path)
  then Raise (ValueError ("Directory '" +:+ directory +:+ "' does not exist"))
  else
    let tree_lines := [name root_path +:+ "/"] in
    _build_tree_within stack lower self root_path "" tree_lines 0 root_path.




(** ** The command line: the configuration [main] builds *)

Record Args := MkArgs {
  arg_directory : string;
  arg_output : option string;
  arg_max_depth : option Z;
  arg_ext : option (list string);
  arg_exclude_dirs : option (list string);
  arg_exclude_files : option (list string);
  arg_include_images : bool;
  arg_minimal : bool
}.

Definition image_extensions : list string :=
  [".png"; ".jpg"; ".jpeg"; ".gif"; ".webp"; ".svg"; ".ico"].

Definition main_config (args : Args) : Config :=
  {| cfg_max_depth :=
       if truthy_int (arg_max_depth args) then Some (arg_max_depth args) else None;
     cfg_include_extensions :=
       if arg_minimal args
       then Some (Some [".ts"; ".tsx"; ".js"; ".jsx"; ".json"; ".md"])
       else if truthy_list (arg_ext args) then Some (arg_ext args) else None;
     cfg_exclude_dirs :=
       if truthy_list (arg_exclude_dirs args)
       then Some (DEFAULT_CONFIG.exclude_dirs ++ default [] (arg_exclude_dirs args))%list
       else None;
     cfg_exclude_files :=
       if truthy_list (arg_exclude_files args)
       then Some (DEFAULT_CONFIG.exclude_files ++ default [] (arg_exclude_files args))%list
       else None;
     cfg_exclude_patterns :=
       if negb (arg_include_images args)
       then Some (DEFAULT_CONFIG.exclude_patterns ++ image_extensions)%list
       else None;
     cfg_exclude_path_patterns := None |}.

(** [generator = TreeGenerator(config=config)] *)
Definition main_generator (args : Args) : TreeGenerator :=
  __init__ (main_config args).

(** ** Writing and printing

    What [generate_tree] and [main] do besides computing the text: the
    lines they print and the file they write, in order.  Opening the
    output file succeeds or raises; [open_w] tells which, and with what
    exception.  Opening truncates the file; writing the text to it then
    succeeds or raises (a name that cannot be encoded, a full disk), as
    [write_w] tells, and a failed write leaves the file empty.
    [WriteFile path content] says that the file now holds [content]. *)

Inductive effect :=
| Print (text : string)
| WriteFile (path content : string).

(** Python truthiness of an optional string *)
Definition truthy_str (o : option string) : bool :=
  match o with
  | Some (String _ _) => true
  | _ => false
  end.

(** [str(n)] for a length *)
Definition str_of_nat (n : nat) : string :=
  NilZero.string_of_uint (Nat.to_uint n).

(** [generate_tree] with its output file *)
Definition generate_tree_io (lower : string -> string) (self : TreeGenerator)
    (fs : FileSystem) (open_w : string -> option exn)
    (write_w : string -> string -> option exn)
    (directory : string) (output_file : option string)
    : list effect * Result string :=
  match generate_lines lower self fs directory with
  | Raise e => ([], Raise e)
  | Ok tree_lines =>
      let tree_output := Str.join (String (ascii_of_nat 10) "") tree_lines in
      if truthy_str output_file then
        let f := default "" output_file in
        match open_w f with
        | Some e => ([], Raise e)
        | None =>
            match write_w f tree_output with
            | Some e => ([WriteFile f ""], Raise e)
            | None =>
                ([ WriteFile f tree_output;
                   Print ("✓ Tree structure saved to '" +:+ f +:+ "'");
                   Print ("✓ Total lines: " +:+ str_of_nat (length tree_lines)) ],
                 Ok tree_output)
            end
        end
      else ([], Ok tree_output)
  end.

(** What [main] prints before it calls [generate_tree] *)
Definition banner (args : Args) : list effect :=
  [Print ("Generating tree for: " +:+ arg_directory args)] ++
  (if arg_minimal args then [Print "Mode: Minimal (source code only)"] else []) ++
  [Print (String.concat "" (List.repeat "-" 50))].

(** [main], after the arguments are parsed *)
Definition main (lower : string -> string) (fs : FileSystem)
    (open_w : string -> option exn) (write_w : string -> string -> option exn)
    (args : Args) : list effect * Result unit :=
  let generator := main_generator args in
  match generate_tree_io lower generator fs open_w write_w
          (arg_directory args) (arg_output args) with
  | (effects, Raise e) => (banner args ++ effects, Raise e)
  | (effects, Ok tree) =>
      (banner args ++ effects ++
       (if negb (truthy_str (arg_output args)) then [Print tree] else []),
       Ok tt)
  end.

(** ** Notions the properties are stated with *)

(** A generator with another maximum depth *)
Definition with_max_depth (self : TreeGenerator) (d : option Z) : TreeGenerator :=
  {| exclude_dirs := exclude_dirs self;
     exclude_files := exclude_files self;
     exclude_patterns := exclude_patterns self;
     exclude_path_patterns := exclude_path_patterns self;
     include_extensions := include_extensions self;
     max_depth := d |}.

(** How many levels below [root] the entry [p] lies *)
Definition level (root p : Path) : Z :=
  Z.of_nat (length (parts p)) - Z.of_nat (length (parts root)).

(** The directory an entry is listed in *)
Definition parent_parts (p : Path) : list string := removelast (parts p).

(** The entries the exclusion rules leave visible: those found in the
    root or in a visible directory that is read without a permission
    failure (neither its listing nor the examination of its entries is
    denied), and not excluded themselves. *)
Inductive visible (self : TreeGenerator) (root : Path) : Path -> Prop :=
| visible_top listing item :
    iterdir root = Ok listing ->
    In item listing ->
    _should_exclude self item (Some root) = false ->
    visible self root item
| visible_below parent listing item :
    visible self root parent ->
    iterdir parent = Ok listing ->
    In item listing ->
    _should_exclude self item (Some root) = false ->
    visible self root item.

(** Names are unique within a directory, as on every filesystem. *)
Fixpoint nodupb (l : list string) : bool :=
  match l with
  | [] => true
  | x :: l' => negb (existsb (String.eqb x) l') && nodupb l'
  end.

Fixpoint wf_node (n : node) : bool :=
  match n with
  | File => true
  | Dir _ cs => nodupb (map fst cs) && forallb (fun c => wf_node (snd c)) cs
  end.

Definition wf_path (p : Path) : bool :=
  match target p with
  | Some n => wf_node n
  | None => true
  end.

(** The order of a sibling group: directories first, then names compared
    case-insensitively. *)
Definition sibling_le (lower : string -> string) (p q : Path) : Prop :=
  (is_dir q = true -> is_dir p = true) /\
  (is_dir p = is_dir q -> String.le (lower (name p)) (lower (name q))).

(** [emptied n n']: [n'] is [n] with one unreadable directory replaced by
    an empty, readable one. *)
Inductive emptied : node -> node -> Prop :=
| emptied_here cs : emptied (Dir false cs) (Dir true [])
| emptied_in r cs1 nm c c' cs2 :
    emptied c c' ->
    emptied (Dir r (cs1 ++ (nm, c) :: cs2)) (Dir r (cs1 ++ (nm, c') :: cs2)).

(** *** The exclusion decision as the specification words it

    Five rules tried in order; a rule excludes the entry, keeps it, or
    passes it on to the next rule. *)

Inductive verdict := Exclude | Keep | NextRule.

Definition rule := TreeGenerator -> Path -> Path -> verdict.

(** 1. path-substring exclusion on the normalized root-relative path *)
Definition rule_path_substring : rule := fun self entry root =>
  match relative_to entry root with
  | Some rel =>
      let normalized := Str.replace "\" "/" (str_of_parts rel) in
      if existsb (fun sub => Str.contains sub normalized) (exclude_path_patterns self)
      then Exclude else NextRule
  | None => NextRule
  end.

(** 2. a directory is decided by its bare name alone *)
Definition rule_directory_name : rule := fun self entry root =>
  if is_dir entry
  then if bool_decide (name entry ∈ exclude_dirs self) then Exclude else Keep
  else NextRule.

(** 3. exact file name *)
Definition rule_file_name : rule := fun self entry root =>
  if bool_decide (name entry ∈ exclude_files self) then Exclude else NextRule.

(** 4. raw string suffix *)
Definition rule_suffix : rule := fun self entry root =>
  if existsb (fun pat => Str.endswith (name entry) pat) (exclude_patterns self)
  then Exclude else NextRule.

(** 5. the allow-list of extensions, when there is a non-empty one *)
Definition rule_allow_list : rule := fun self entry root =>
  match include_extensions self with
  | Some (ext :: exts) =>
      if existsb (String.eqb (suffix entry)) (ext :: exts) then Keep else Exclude
  | _ => NextRule
  end.

Definition exclusion_rules : list rule :=
  [rule_path_substring; rule_directory_name; rule_file_name; rule_suffix;
   rule_allow_list].

Fixpoint first_match (rules : list rule) (self : TreeGenerator)
    (entry root : Path) : bool :=
  match rules with
  | [] => false
  | r :: rules' =>
      match r self entry root with
      | Exclude => true
      | Keep => false
      | NextRule => first_match rules' self entry root
      end
  end.

Definition excluded_spec (self : TreeGenerator) (entry root : Path) : bool :=
  first_match exclusion_rules self entry root.

(** ** A sample project *)

Module Sample.
Definition project : node :=
  Dir true
    [ ("src", Dir true [("index.ts", File); ("App.tsx", File)]);
      ("node_modules", Dir true [("pkg", Dir true [("index.js", File)])]);
      ("README.md", File);
      (".env", File);
      ("secret", Dir false [("key.pem", File)]);
      ("lib", Dir true
         [("a", Dir true
            [("node_modules", Dir true [("deep.js", File)]);
             ("b.ts", File)])]) ].

Definition root : Path := MkPath ["home"; "proj"] (Some project).

Definition fs : FileSystem :=
  MkFileSystem (fun directory =>
    if String.eqb directory "proj" then root
    else if String.eqb directory "gone" then MkPath ["home"; "gone"] None
    else if String.eqb directory "locked" then
      MkPath ["home"; "locked"] (Some (Dir false [("x", File)]))
    else MkPath ["home"; directory] None).

Definition default_generator : TreeGenerator := __init__ empty_config.

(** The same project with the unreadable [secret] empty instead *)
Definition project_emptied : node :=
  Dir true
    [ ("src", Dir true [("index.ts", File); ("App.tsx", File)]);
      ("node_modules", Dir true [("pkg", Dir true [("index.js", File)])]);
      ("README.md", File);
      (".env", File);
      ("secret", Dir true []);
      ("lib", Dir true
         [("a", Dir true
            [("node_modules", Dir true [("deep.js", File)]);
             ("b.ts", File)])]) ].

Definition fs_emptied : FileSystem :=
  MkFileSystem (fun directory => MkPath ["home"; "proj"] (Some project_emptied)).

(** The same project, its entries listed in another order *)
Definition project_reordered : node :=
  Dir true
    [ (".env", File);
      ("lib", Dir true
         [("a", Dir true
            [("b.ts", File);
             ("node_modules", Dir true [("deep.js", File)])])]);
      ("README.md", File);
      ("secret", Dir false [("key.pem", File)]);
      ("node_modules", Dir true [("pkg", Dir true [("index.js", File)])]);
      ("src", Dir true [("App.tsx", File); ("index.ts", File)]) ].

(** A directory listed in two orders *)
Definition fs_listed (first second : string) : FileSystem :=
  MkFileSystem (fun directory =>
    MkPath ["home"; "pair"] (Some (Dir true [(first, File); (second, File)]))).

(** A root that is a regular file *)
Definition fs_file : FileSystem :=
  MkFileSystem (fun directory => MkPath ["home"; "notes.txt"] (Some File)).

(** A directory whose entries are all excluded by the default rules *)
Definition hidden : node :=
  Dir true
    [ ("node_modules", Dir true [("pkg", File)]);
      (".env", File);
      ("debug.log", File) ].

Definition fs_hidden : FileSystem :=
  MkFileSystem (fun directory => MkPath ["home"; "hidden"] (Some hidden)).

(** Two visits of the default rendering of the project *)
Definition readme_visit : visit :=
  MkVisit (child ["home"; "proj"] ("README.md", File)) 0 "" true.

Definition src_visit : visit :=
  MkVisit (child ["home"; "proj"]
             ("src", Dir true [("index.ts", File); ("App.tsx", File)]))
          0 "" false.


Definition b_visit : visit :=
  MkVisit (child ["home"; "proj"; "lib"; "a"] ("b.ts", File)) 2
          (next_prefix false +:+ next_prefix true) true.

(** [--exclude-dirs secret --exclude-files README.md], and the visit of
    [src], then the last entry of the root *)
Definition extra_args : Args :=
  MkArgs "proj" None None None (Some ["secret"]) (Some ["README.md"]) false false.

Definition src_last_visit : visit :=
  MkVisit (child ["home"; "proj"]
             ("src", Dir true [("index.ts", File); ("App.tsx", File)]))
          0 "" true.

(** A generator that allows [.ts] files only *)
Definition ts_generator : TreeGenerator :=
  __init__ (MkConfig None None None (Some (Some [".ts"])) None None).

(** Command lines: no option at all, and [--ext .py --minimal] *)
Definition plain_args : Args :=
  MkArgs "proj" None None None None None false false.

Definition minimal_args : Args :=
  MkArgs "proj" None None (Some [".py"]) None None false true.

(** Command lines that write to a file; the file opens without error *)
Definition file_args : Args :=
  MkArgs "proj" (Some "tree.txt") None None None None false false.

Definition gone_args : Args :=
  MkArgs "gone" (Some "tree.txt") None None None None false false.

Definition open_ok (path : string) : option exn := None.

Definition write_ok (path content : string) : option exn := None.


(** The text of the default rendering of the project *)
Definition text : string :=
  Str.join (String (ascii_of_nat 10) "")
    ["proj/"; "├── lib/"; "│   └── a/"; "│       └── b.ts";
     "├── secret/"; "├── src/"; "│   ├── App.tsx"; "│   └── index.ts";
     "└── README.md"].

(** A build directory matched by a default path substring, and a file
    beneath it *)
Definition build_dir : Path :=
  MkPath ["home"; "proj"; "android"; "app"; "build"] (Some (Dir true [])).

Definition build_file : Path :=
  MkPath ["home"; "proj"; "android"; "app"; "build"; "outputs"; "app.txt"] (Some File).


(** The nested [node_modules] directory as the renderer meets it *)
Definition nested_node_modules : Path :=
  MkPath ["home"; "proj"; "lib"; "a"; "node_modules"]
         (Some (Dir true [("deep.js", File)])).
End Sample.

(** The order [sorted] establishes: no later key is smaller. *)
Definition key_le {A K : Type} (lt : K -> K -> bool) (key : A -> K) (x y : A) : Prop :=
  lt (key y) (key x) = false.

(** The children of a listed directory that [_build_tree] iterates over,
    in its order: sorted, then filtered. *)
Definition kept (lower : string -> string) (self : TreeGenerator) (root : Path)
    (here : list string) (cs : list (string * node)) : list (string * node) :=
  List.filter (fun c => negb (_should_exclude self (child here c) (Some root)))
    (sorted key_lt (fun c => sort_key lower (child here c)) cs).

(** A visit belongs to the block of the child [c] of [here]: it is the
    visit of [c] or lies strictly below [c]. *)
Definition in_block (here : list string) (c : string * node) (v : visit) : Prop :=
  v_item v = child here c \/
  exists rest, rest <> [] /\ parts (v_item v) = (here ++ [fst c]) ++ rest.

(** [reordered n n']: the same entries, listed in another order at any
    number of directories. *)
Inductive reordered : node -> node -> Prop :=
| reordered_file : reordered File File
| reordered_dir r cs mid cs' :
    Forall2 (fun c c' => fst c = fst c' /\ reordered (snd c) (snd c')) cs mid ->
    Permutation mid cs' ->
    reordered (Dir r cs) (Dir r cs').

(** The sort key of a listed child; it does not depend on the directory. *)
Definition entry_key (lower : string -> string) (c : string * node) : bool * string :=
  sort_key lower (child [] c).

Definition key_eqb (k1 k2 : bool * string) : bool :=
  Bool.eqb (fst k1) (fst k2) && String.eqb (snd k1) (snd k2).

Fixpoint nodup_keysb (l : list (bool * string)) : bool :=
  match l with
  | [] => true
  | k :: l' => negb (existsb (key_eqb k) l') && nodup_keysb l'
  end.

(** No two entries of a directory have the same sort key: no two
    directories, and no two files, bear names that differ in case only. *)
Fixpoint distinct_keys (lower : string -> string) (n : node) : bool :=
  match n with
  | File => true
  | Dir _ cs =>
      nodup_keysb (map (entry_key lower) cs) &&
      forallb (fun c => distinct_keys lower (snd c)) cs
  end.


(** * Properties *)

(** ** Induction on snapshots *)

Lemma node_children_ind (P : node -> Prop) :
  P File ->
  (forall r cs, Forall (fun c => P (snd c)) cs -> P (Dir r cs)) ->
  forall n, P n.
Proof.
  intros HF HD. fix IH 1. intros [|r cs]; [exact HF|].
  apply HD. induction cs as [|c cs IHcs]; constructor.
  - apply IH.
  - exact IHcs.
Qed.

(** ** Facts about [sorted] *)

Section SortedFacts.
Context {A K : Type} (lt : K -> K -> bool) (key : A -> K).

Lemma insert_sorted_perm x l : Permutation (insert_sorted lt key x l) (x :: l).
Proof.
  induction l as [|y l IH]; simpl; [reflexivity|].
  destruct (lt (key y) (key x)); [|reflexivity].
  rewrite IH. apply perm_swap.
Qed.

Lemma sorted_perm l : Permutation (sorted lt key l) l.
Proof.
  induction l as [|x l IH]; simpl; [reflexivity|].
  rewrite insert_sorted_perm. now constructor.
Qed.

Lemma sorted_In x l : In x (sorted lt key l) <-> In x l.
Proof.
  split; apply Permutation_in; [|symmetry]; apply sorted_perm.
Qed.

Lemma insert_sorted_map {B} (f : B -> A) x l :
  insert_sorted lt key (f x) (map f l) =
  map f (insert_sorted lt (fun b => key (f b)) x l).
Proof.
  induction l as [|y l IH]; simpl; [reflexivity|].
  destruct (lt (key (f y)) (key (f x))); simpl; [now rewrite IH|reflexivity].
Qed.

Lemma sorted_map {B} (f : B -> A) l :
  sorted lt key (map f l) = map f (sorted lt (fun b => key (f b)) l).
Proof.
  induction l as [|x l IH]; simpl; [reflexivity|].
  rewrite <- insert_sorted_map. f_equal. exact IH.
Qed.

Local Abbreviation key_le := (key_le lt key).

Hypothesis lt_asym : forall a b, lt a b = true -> lt b a = false.
Hypothesis le_trans : forall x y z, key_le x y -> key_le y z -> key_le x z.

Lemma insert_sorted_strongly x l :
  StronglySorted key_le l -> StronglySorted key_le (insert_sorted lt key x l).
Proof.
  induction 1 as [|y l Hl IH Hy]; simpl.
  - repeat constructor.
  - destruct (lt (key y) (key x)) eqn:E.
    + constructor; [exact IH|].
      rewrite List.Forall_forall in Hy |- *. intros z Hz.
      apply (Permutation_in _ (insert_sorted_perm x l)) in Hz.
      destruct Hz as [<-|Hz]; [apply lt_asym, E | now apply Hy].
    + constructor; [now constructor|].
      constructor; [exact E|].
      rewrite List.Forall_forall in Hy |- *. intros z Hz.
      eapply le_trans; [exact E | now apply Hy].
Qed.

Lemma sorted_strongly l : StronglySorted key_le (sorted lt key l).
Proof.
  induction l as [|x l IH]; simpl; [constructor|].
  now apply insert_sorted_strongly.
Qed.

Lemma filter_strongly (f : A -> bool) l :
  StronglySorted key_le l -> StronglySorted key_le (List.filter f l).
Proof.
  induction 1 as [|y l Hl IH Hy]; simpl; [constructor|].
  destruct (f y); [|exact IH].
  constructor; [exact IH|].
  apply List.Forall_forall. intros z Hz. apply List.filter_In in Hz.
  rewrite List.Forall_forall in Hy. now apply Hy.
Qed.
End SortedFacts.

Lemma filter_map_comm {A B} (f : B -> A) (p : A -> bool) l :
  List.filter p (map f l) = map f (List.filter (fun b => p (f b)) l).
Proof.
  induction l as [|x l IH]; simpl; [reflexivity|].
  destruct (p (f x)); simpl; now rewrite IH.
Qed.

(** ** The order on sort keys *)

Lemma ltb_false_leb a b : String.ltb b a = false <-> String.leb a b = true.
Proof.
  unfold String.ltb, String.leb. rewrite (String.compare_antisym a b).
  destruct (String.compare b a); simpl; intuition congruence.
Qed.

Lemma key_lt_asym k1 k2 : key_lt k1 k2 = true -> key_lt k2 k1 = false.
Proof.
  destruct k1 as [[] s1], k2 as [[] s2]; unfold key_lt; simpl; try congruence;
    unfold String.ltb; rewrite (String.compare_antisym s2 s1);
    destruct (String.compare s1 s2); simpl; congruence.
Qed.

Lemma key_lt_false k1 k2 :
  key_lt k2 k1 = false <->
  (fst k2 = false -> fst k1 = false) /\
  (fst k1 = fst k2 -> String.le (snd k1) (snd k2)).
Proof.
  unfold String.le.
  destruct k1 as [[] s1], k2 as [[] s2]; unfold key_lt; simpl;
    rewrite ?ltb_false_leb, ?Is_true_true; intuition congruence.
Qed.

Lemma key_le_trans {A} (key : A -> bool * string) x y z :
  key_le key_lt key x y -> key_le key_lt key y z -> key_le key_lt key x z.
Proof.
  unfold key_le. rewrite !key_lt_false.
  intros [H1 H2] [H3 H4]. split; [tauto|].
  intros E.
  destruct (fst (key x)) eqn:Ex, (fst (key y)) eqn:Ey, (fst (key z)) eqn:Ez;
    try discriminate;
    try (etrans; [apply H2 | apply H4]; reflexivity);
    try (exfalso; (specialize (H1 eq_refl) || specialize (H3 eq_refl)); discriminate).
Qed.

(** ** The loop over a listing *)

Lemma for_each_ext {A} (body1 body2 : nat -> A -> list string -> Result (list string))
    items lines :
  (forall i x ls, In (i, x) items -> body1 i x ls = body2 i x ls) ->
  for_each body1 items lines = for_each body2 items lines.
Proof.
  revert lines. induction items as [|[i x] items IH]; intros lines H; simpl.
  - reflexivity.
  - rewrite (H i x lines) by now left.
    destruct (body2 i x lines); [|reflexivity].
    apply IH. intros. apply H. now right.
Qed.

Lemma combine_seq_map {A B} (f : B -> A) (l : list B) s :
  combine (seq s (length (map f l))) (map f l) =
  map (fun ix => (fst ix, f (snd ix))) (combine (seq s (length l)) l).
Proof.
  revert s. induction l as [|x l IH]; intros s; simpl; [reflexivity|].
  f_equal. apply IH.
Qed.

Lemma enumerate_map {A B} (f : B -> A) (l : list B) :
  enumerate (map f l) = map (fun ix => (fst ix, f (snd ix))) (enumerate l).
Proof. apply combine_seq_map. Qed.

Lemma for_each_map {A B} (f : B -> A) body (items : list (nat * B)) lines :
  for_each body (map (fun ix => (fst ix, f (snd ix))) items) lines =
  for_each (fun i x => body i (f x)) items lines.
Proof.
  revert lines. induction items as [|[i x] items IH]; intros lines; simpl.
  - reflexivity.
  - destruct (body i (f x) lines); [apply IH|reflexivity].
Qed.

Lemma in_enumerate {A} (l : list A) i x : In (i, x) (enumerate l) -> In x l.
Proof. unfold enumerate. apply in_combine_r. Qed.

Lemma in_kept lower self root here cs c :
  In c (kept lower self root here cs) ->
  In c cs /\ _should_exclude self (child here c) (Some root) = false.
Proof.
  unfold kept. rewrite List.filter_In, sorted_In, negb_true_iff. tauto.
Qed.

Lemma kept_decorated {B} lower self root here (r : string * node -> B) cs :
  List.filter (fun it => negb (_should_exclude self (fst it) (Some root)))
    (sorted key_lt (fun it => sort_key lower (fst it))
       (map (fun c => (child here c, r c)) cs)) =
  map (fun c => (child here c, r c)) (kept lower self root here cs).
Proof.
  unfold kept. rewrite sorted_map, filter_map_comm. reflexivity.
Qed.

Lemma contents_of_children lower self root here cs :
  contents_of lower self root (map (child here) cs) =
  map (child here) (kept lower self root here cs).
Proof.
  unfold contents_of, kept. rewrite sorted_map, filter_map_comm. reflexivity.
Qed.

(** ** The equations of the two traversals *)

Section Equations.
Variable lower : string -> string.
Variables (self : TreeGenerator) (root : Path).

Lemma build_node_reached n here prefix lines depth :
  depth_reached self depth = true ->
  build_node lower self root n here prefix lines depth = Ok lines.
Proof. intros H. destruct n; simpl; now rewrite H. Qed.

Lemma build_node_listed cs here prefix lines depth :
  depth_reached self depth = false ->
  build_node lower self root (Dir true cs) here prefix lines depth =
  let contents := kept lower self root here cs in
  for_each
    (loop_body (child here)
       (fun c => build_node lower self root (snd c) (here ++ [fst c]))
       (length contents) prefix depth)
    (enumerate contents) lines.
Proof.
  intros H. simpl. rewrite H.
  set (f := fun c : string * node =>
              (child here c, build_node lower self root (snd c) (here ++ [fst c]))).
  rewrite (kept_decorated lower self root here (fun c => snd (f c))).
  change (fun c => (child here c, snd (f c))) with f.
  rewrite length_map, enumerate_map, (for_each_map f). reflexivity.
Qed.

Lemma walk_node_reached n here prefix depth :
  depth_reached self depth = true ->
  walk_node lower self root n here prefix depth = [].
Proof. intros H. destruct n; simpl; now rewrite H. Qed.

Lemma walk_node_listed cs here prefix depth :
  depth_reached self depth = false ->
  walk_node lower self root (Dir true cs) here prefix depth =
  let contents := kept lower self root here cs in
  flat_map
    (walk_step (child here)
       (fun c => walk_node lower self root (snd c) (here ++ [fst c]))
       (length contents) prefix depth)
    (enumerate contents).
Proof.
  intros H. simpl. rewrite H.
  set (f := fun c : string * node =>
              (child here c, walk_node lower self root (snd c) (here ++ [fst c]))).
  rewrite (kept_decorated lower self root here (fun c => snd (f c))).
  change (fun c => (child here c, snd (f c))) with f.
  rewrite length_map, enumerate_map, !flat_map_concat_map, map_map.
  reflexivity.
Qed.

Lemma walk_node_denied cs here prefix depth :
  walk_node lower self root (Dir false cs) here prefix depth = [].
Proof. simpl. now destruct (depth_reached self depth). Qed.

Lemma walk_node_file here prefix depth :
  walk_node lower self root File here prefix depth = [].
Proof. simpl. now destruct (depth_reached self depth). Qed.

(** The loop appends the visits' lines. *)
Lemma for_each_lines {A} (path_of : A -> Path) recur wrecur len prefix depth
    (items : list (nat * A)) lines :
  (forall i x, In (i, x) items -> is_dir (path_of x) = true ->
     forall p ls d, recur x p ls d = Ok (ls ++ map v_line (wrecur x p d))) ->
  for_each (loop_body path_of recur len prefix depth) items lines =
  Ok (lines ++ map v_line
        (flat_map (walk_step path_of wrecur len prefix depth) items)).
Proof.
  revert lines. induction items as [|[i x] items IH]; intros lines H; simpl.
  - now rewrite app_nil_r.
  - unfold loop_body at 1. unfold walk_step at 1. simpl.
    destruct (is_dir (path_of x)) eqn:E.
    + rewrite (H i x (or_introl eq_refl) E).
      rewrite IH by (intros j y Hj; apply (H j y); now right).
      rewrite map_app, <- !app_assoc. reflexivity.
    + rewrite IH by (intros j y Hj; apply (H j y); now right).
      rewrite <- !app_assoc. reflexivity.
Qed.

(** On a directory, [build_node] returns the lines of [walk_node]. *)
Lemma build_node_walk n :
  forall here prefix lines depth,
  n <> File ->
  build_node lower self root n here prefix lines depth =
  Ok (lines ++ map v_line (walk_node lower self root n here prefix depth)).
Proof.
  induction n as [|r cs IH] using node_children_ind; intros here prefix lines depth Hn;
    [congruence|].
  destruct (depth_reached self depth) eqn:G.
  { rewrite build_node_reached, walk_node_reached by assumption.
    now rewrite app_nil_r. }
  destruct r.
  - rewrite build_node_listed, walk_node_listed by assumption. simpl.
    apply for_each_lines. intros i c Hin Hd p ls d.
    apply in_enumerate, in_kept in Hin. destruct Hin as [Hin _].
    rewrite List.Forall_forall in IH. apply (IH c Hin).
    unfold is_dir, child in Hd. simpl in Hd. destruct (snd c); congruence.
  - rewrite walk_node_denied. simpl. rewrite G. now rewrite app_nil_r.
Qed.

End Equations.

(** ** [_build_tree] in the shape of the source *)

Section Traversal.
Variable lower : string -> string.
Variables (self : TreeGenerator) (root : Path).

Lemma _build_tree_child here c prefix lines depth :
  _build_tree lower self (child here c) prefix lines depth root =
  build_node lower self root (snd c) (here ++ [fst c]) prefix lines depth.
Proof.
  unfold _build_tree. simpl.
  destruct (depth_reached self depth) eqn:G; [|reflexivity].
  now rewrite build_node_reached.
Qed.

Lemma _build_tree_eq path prefix lines depth :
  _build_tree lower self path prefix lines depth root =
  if depth_reached self depth then Ok lines else
  match iterdir path with
  | Raise PermissionError => Ok lines
  | Raise e => Raise e
  | Ok listing =>
      let contents := contents_of lower self root listing in
      for_each
        (loop_body id
           (fun item prefix lines depth =>
              _build_tree lower self item prefix lines depth root)
           (length contents) prefix depth)
        (enumerate contents) lines
  end.
Proof.
  unfold _build_tree, iterdir.
  destruct (depth_reached self depth) eqn:G; [reflexivity|].
  destruct (target path) as [[|[] cs]|]; [| | |reflexivity].
  - simpl. now rewrite G.
  - rewrite build_node_listed by assumption. simpl.
    rewrite contents_of_children, length_map, enumerate_map, for_each_map.
    apply for_each_ext. intros i c ls _.
    unfold loop_body, id. cbv beta zeta.
    destruct (is_dir (child (parts path) c)); [|reflexivity].
    symmetry. apply _build_tree_child.
  - simpl. now rewrite G.
Qed.

Lemma _build_tree_walk path prefix lines depth :
  is_dir path = true ->
  _build_tree lower self path prefix lines depth root =
  Ok (lines ++ map v_line (walk lower self path prefix depth root)).
Proof.
  unfold is_dir, _build_tree, walk. intros Hd.
  destruct (target path) as [n|]; [|discriminate].
  destruct (depth_reached self depth) eqn:G.
  - now rewrite walk_node_reached, app_nil_r.
  - apply build_node_walk. destruct n; congruence.
Qed.

(** ** Reasoning about visits *)

(** Every visit is the head of a block of some kept child, or lies in the
    walk of a kept child directory. *)
Lemma walk_node_cases n here prefix depth v :
  In v (walk_node lower self root n here prefix depth) ->
  exists cs i c,
    n = Dir true cs /\ depth_reached self depth = false /\
    In (i, c) (enumerate (kept lower self root here cs)) /\
    let is_last := (i =? length (kept lower self root here cs) - 1)%nat in
    (v = MkVisit (child here c) depth prefix is_last \/
     is_dir (child here c) = true /\
     In v (walk_node lower self root (snd c) (here ++ [fst c])
             (prefix +:+ next_prefix is_last) (depth + 1))).
Proof.
  intros Hv.
  destruct (depth_reached self depth) eqn:G.
  { now rewrite walk_node_reached in Hv. }
  destruct n as [|[] cs].
  - now rewrite walk_node_file in Hv.
  - rewrite walk_node_listed in Hv by assumption. simpl in Hv.
    apply in_flat_map in Hv. destruct Hv as [[i c] [Hin Hv]].
    exists cs, i, c. repeat split; try assumption.
    unfold walk_step in Hv. simpl in Hv. destruct Hv as [<-|Hv]; [now left|].
    right. destruct (is_dir (child here c)); [now split | contradiction].
  - now rewrite walk_node_denied in Hv.
Qed.

Lemma walk_node_intro cs here prefix depth i c :
  depth_reached self depth = false ->
  In (i, c) (enumerate (kept lower self root here cs)) ->
  let is_last := (i =? length (kept lower self root here cs) - 1)%nat in
  In (MkVisit (child here c) depth prefix is_last)
     (walk_node lower self root (Dir true cs) here prefix depth) /\
  (is_dir (child here c) = true ->
   forall v,
     In v (walk_node lower self root (snd c) (here ++ [fst c])
             (prefix +:+ next_prefix is_last) (depth + 1)) ->
     In v (walk_node lower self root (Dir true cs) here prefix depth)).
Proof.
  intros G Hin. rewrite walk_node_listed by assumption. simpl.
  split.
  - apply in_flat_map. exists (i, c). split; [assumption|]. now left.
  - intros Hd v Hv. apply in_flat_map. exists (i, c). split; [assumption|].
    unfold walk_step. simpl. rewrite Hd. now right.
Qed.

(** An induction principle over the visits of a walk *)
Lemma walk_node_visits_ind (Q : list string -> Z -> visit -> Prop) :
  (forall here depth prefix is_last c,
     depth_reached self depth = false ->
     _should_exclude self (child here c) (Some root) = false ->
     Q here depth (MkVisit (child here c) depth prefix is_last)) ->
  (forall here depth c v,
     depth_reached self depth = false ->
     _should_exclude self (child here c) (Some root) = false ->
     is_dir (child here c) = true ->
     Q (here ++ [fst c]) (depth + 1) v ->
     Q here depth v) ->
  forall n here prefix depth v,
    In v (walk_node lower self root n here prefix depth) -> Q here depth v.
Proof.
  intros Hhead Hsub.
  induction n as [|r cs IH] using node_children_ind; intros here prefix depth v Hv.
  - now rewrite walk_node_file in Hv.
  - apply walk_node_cases in Hv.
    destruct Hv as (cs' & i & c & E & G & Hin & Hv). injection E as -> <-.
    apply in_enumerate, in_kept in Hin. destruct Hin as [Hin Hx].
    destruct Hv as [->|[Hd Hv]].
    + now apply Hhead.
    + apply (Hsub here depth c v G Hx Hd).
      rewrite List.Forall_forall in IH. exact (IH c Hin _ _ _ _ Hv).
Qed.

End Traversal.

(** ** What a traversal can return *)

Section Outcomes.
Variable lower : string -> string.
Variables (self : TreeGenerator) (root : Path).

Lemma build_node_outcome n here prefix lines depth :
  (exists out, build_node lower self root n here prefix lines depth = Ok out) \/
  n = File /\
  build_node lower self root n here prefix lines depth = Raise NotADirectoryError.
Proof.
  destruct n as [|r cs].
  - simpl. destruct (depth_reached self depth); eauto.
  - left. eexists. apply build_node_walk. congruence.
Qed.

Lemma _build_tree_outcome path prefix lines depth :
  (exists out, _build_tree lower self path prefix lines depth root = Ok out) \/
  _build_tree lower self path prefix lines depth root = Raise NotADirectoryError \/
  _build_tree lower self path prefix lines depth root = Raise FileNotFoundError.
Proof.
  unfold _build_tree.
  destruct (depth_reached self depth); [eauto|].
  destruct (target path) as [n|]; [|auto].
  destruct (build_node_outcome n (parts path) prefix lines depth) as [?|[_ ?]]; auto.
Qed.

End Outcomes.

Lemma generate_lines_walk lower self fs directory :
  is_dir (resolve fs directory) = true ->
  generate_lines lower self fs directory =
  Ok ((name (resolve fs directory) +:+ "/") ::
      map v_line (walk lower self (resolve fs directory) "" 0 (resolve fs directory))).
Proof.
  intros Hd. unfold generate_lines.
  assert (exists_ (resolve fs directory) = true) as ->.
  { unfold is_dir, exists_ in *. now destruct (target (resolve fs directory)). }
  simpl. now rewrite _build_tree_walk.
Qed.

(** ** The claims *)

(** C2. The exclusion decision applies its rules in the fixed order of the
    specification, the first rule that decides ending the evaluation:
    [_should_exclude] agrees with the five ordered rules of
    [excluded_spec].  In particular a path-substring match excludes files
    and directories alike before anything else is looked at, and a
    directory that passes it is decided by its bare name alone. *)
Theorem should_exclude_rule_order (self : TreeGenerator) (entry root : Path) :
  _should_exclude self entry (Some root) = excluded_spec self entry root /\
  (rule_path_substring self entry root = Exclude ->
   _should_exclude self entry (Some root) = true) /\
  (rule_path_substring self entry root = NextRule -> is_dir entry = true ->
   _should_exclude self entry (Some root) =
   bool_decide (name entry ∈ exclude_dirs self)).
Proof.
  assert (E : _should_exclude self entry (Some root) = excluded_spec self entry root).
  { unfold _should_exclude, excluded_spec, exclusion_rules, first_match,
      rule_path_substring, rule_directory_name, rule_file_name, rule_suffix,
      rule_allow_list, _should_exclude_by_path, truthy_list.
    destruct (relative_to entry root) as [rel|];
      [destruct (existsb _ (exclude_path_patterns self)); [reflexivity|]|];
      (destruct (is_dir entry);
       [destruct (bool_decide _); reflexivity|];
       destruct (bool_decide _); [reflexivity|];
       destruct (existsb _ (exclude_patterns self)); [reflexivity|];
       destruct (include_extensions self) as [[|ext exts]|]; try reflexivity;
       simpl; destruct (existsb _ _) eqn:Ex; simpl in *;
       destruct (suffix entry =? ext)%string; simpl in *; try rewrite Ex;
       reflexivity). }
  split; [exact E|]. rewrite E. unfold excluded_spec, exclusion_rules, first_match.
  split.
  - intros ->. reflexivity.
  - intros -> Hd. unfold rule_directory_name. rewrite Hd.
    now destruct (bool_decide _).
Qed.

(** C6. A root that does not exist makes [generate_tree] raise the
    not-found [ValueError] before any line is produced, and nothing is
    returned; for a root that exists this error is never raised, neither
    at the start nor by any call of [_build_tree] during the traversal. *)
Theorem not_found_only_at_start (lower : string -> string)
    (self : TreeGenerator) (fs : FileSystem) (directory : string) :
  (exists_ (resolve fs directory) = false ->
   generate_lines lower self fs directory =
     Raise (ValueError ("Directory '" +:+ directory +:+ "' does not exist")) /\
   generate_tree lower self fs directory =
     Raise (ValueError ("Directory '" +:+ directory +:+ "' does not exist"))) /\
  (exists_ (resolve fs directory) = true ->
   forall msg, generate_tree lower self fs directory <> Raise (ValueError msg)) /\
  (forall path prefix lines depth root msg,
     _build_tree lower self path prefix lines depth root <> Raise (ValueError msg)).
Proof.
  assert (Hmid : forall path prefix lines depth root msg,
            _build_tree lower self path prefix lines depth root <>
            Raise (ValueError msg)).
  { intros path prefix lines depth root msg.
    destruct (_build_tree_outcome lower self root path prefix lines depth)
      as [[out ->]|[-> | ->]]; discriminate. }
  split; [|split; [|exact Hmid]].
  - intros Hex. unfold generate_tree, generate_lines. now rewrite Hex.
  - intros Hex msg. unfold generate_tree, generate_lines. rewrite Hex. simpl.
    destruct (_build_tree lower self _ _ _ _ _) as [out|e] eqn:E; [discriminate|].
    intros [= ->]. exact (Hmid _ _ _ _ _ _ E).
Qed.

(** C10. The recovery from [PermissionError] covers the root: when the
    root exists and its own listing is denied, the renderer returns the
    header line alone and raises nothing. *)
Theorem denied_root_gives_header (lower : string -> string)
    (self : TreeGenerator) (fs : FileSystem) (directory : string) :
  iterdir (resolve fs directory) = Raise PermissionError ->
  generate_lines lower self fs directory = Ok [name (resolve fs directory) +:+ "/"] /\
  generate_tree lower self fs directory = Ok (name (resolve fs directory) +:+ "/").
Proof.
  intros Hperm. unfold generate_tree, generate_lines, exists_.
  unfold iterdir in Hperm. unfold _build_tree.
  destruct (target (resolve fs directory)) as [[|[] cs]|]; try discriminate.
  simpl. destruct (depth_reached self 0); simpl; auto.
Qed.

(** ** Traversals that agree *)

Lemma build_node_congr lower self1 self2 root1 root2 :
  (forall item, _should_exclude self1 item (Some root1) =
                _should_exclude self2 item (Some root2)) ->
  (forall d, depth_reached self1 d = depth_reached self2 d) ->
  forall n here prefix lines depth,
    build_node lower self1 root1 n here prefix lines depth =
    build_node lower self2 root2 n here prefix lines depth.
Proof.
  intros Hx Hg.
  induction n as [|r cs IH] using node_children_ind; intros here prefix lines depth.
  - simpl. now rewrite Hg.
  - destruct (depth_reached self2 depth) eqn:G.
    { rewrite !build_node_reached; congruence. }
    destruct r; [|simpl; now rewrite Hg].
    rewrite !build_node_listed by congruence. simpl.
    assert (kept lower self1 root1 here cs = kept lower self2 root2 here cs) as ->.
    { unfold kept. apply List.filter_ext. intros c. now rewrite Hx. }
    apply for_each_ext. intros i c ls Hin.
    apply in_enumerate, in_kept in Hin. destruct Hin as [Hin _].
    unfold loop_body. destruct (is_dir (child here c)); [|reflexivity].
    rewrite List.Forall_forall in IH. apply (IH c Hin).
Qed.

Lemma depth_reached_zero self d :
  depth_reached (with_max_depth self (Some 0)) d = false.
Proof. reflexivity. Qed.

Lemma depth_reached_unset self d :
  depth_reached (with_max_depth self None) d = false.
Proof. reflexivity. Qed.

(** C9. A maximum depth of 0 behaves as an unset one: the depth guard is
    never taken, and the renderer returns what it returns without a
    limit.  On the command line a depth of 0 is not even put in the
    configuration, which leaves the default, no limit, in effect. *)
Theorem zero_depth_is_unlimited (lower : string -> string)
    (self : TreeGenerator) (fs : FileSystem) (directory : string) :
  (forall d, depth_reached (with_max_depth self (Some 0)) d = false) /\
  (forall path prefix lines depth root,
     _build_tree lower (with_max_depth self (Some 0)) path prefix lines depth root =
     _build_tree lower (with_max_depth self None) path prefix lines depth root) /\
  generate_tree lower (with_max_depth self (Some 0)) fs directory =
  generate_tree lower (with_max_depth self None) fs directory /\
  (forall dir out ext dirs files images minimal,
     cfg_max_depth (main_config (MkArgs dir out (Some 0) ext dirs files images minimal))
       = None /\
     max_depth (main_generator (MkArgs dir out (Some 0) ext dirs files images minimal))
       = None).
Proof.
  assert (Hb : forall path prefix lines depth root,
     _build_tree lower (with_max_depth self (Some 0)) path prefix lines depth root =
     _build_tree lower (with_max_depth self None) path prefix lines depth root).
  { intros. unfold _build_tree.
    rewrite depth_reached_zero, depth_reached_unset.
    destruct (target path) as [n|]; [|reflexivity].
    apply build_node_congr; reflexivity. }
  split; [apply depth_reached_zero|]. split; [exact Hb|]. split.
  - unfold generate_tree, generate_lines. now rewrite Hb.
  - intros. split; reflexivity.
Qed.

(** ** Snapshots that differ in an unreadable directory *)

Section Related.
Context {A K : Type} (lt : K -> K -> bool) (key : A -> K) (T : A -> A -> Prop).
Hypothesis T_key : forall x y, T x y -> key x = key y.

Lemma insert_sorted_Forall2 x y l l' :
  T x y -> Forall2 T l l' ->
  Forall2 T (insert_sorted lt key x l) (insert_sorted lt key y l').
Proof.
  intros Hxy. induction 1 as [|a b l l' Hab Hl IH]; simpl.
  - now repeat constructor.
  - rewrite (T_key _ _ Hxy), (T_key _ _ Hab).
    destruct (lt (key b) (key y)); repeat constructor; assumption.
Qed.

Lemma sorted_Forall2 l l' :
  Forall2 T l l' -> Forall2 T (sorted lt key l) (sorted lt key l').
Proof.
  induction 1; simpl; [constructor|]. now apply insert_sorted_Forall2.
Qed.

Lemma filter_Forall2 (p : A -> bool) l l' :
  (forall x y, T x y -> p x = p y) ->
  Forall2 T l l' -> Forall2 T (List.filter p l) (List.filter p l').
Proof.
  intros Hp. induction 1 as [|a b l l' Hab Hl IH]; simpl; [constructor|].
  rewrite (Hp _ _ Hab). destruct (p b); [constructor|]; assumption.
Qed.
End Related.

Lemma for_each_Forall2 {A} (body1 body2 : nat -> A -> list string -> Result (list string))
    (l l' : list A) :
  Forall2 (fun x y => forall i ls, body1 i x ls = body2 i y ls) l l' ->
  forall s lines,
    for_each body1 (combine (seq s (length l)) l) lines =
    for_each body2 (combine (seq s (length l')) l') lines.
Proof.
  induction 1 as [|x y l l' Hxy Hl IH]; intros s lines; simpl; [reflexivity|].
  rewrite Hxy. destruct (body2 s y lines); [apply IH|reflexivity].
Qed.

Lemma name_child here c : name (child here c) = fst c.
Proof. unfold name, child. simpl. apply last_last. Qed.

Lemma should_exclude_same self p q root :
  parts p = parts q -> is_dir p = is_dir q ->
  _should_exclude self p root = _should_exclude self q root.
Proof.
  intros Hp Hd.
  unfold _should_exclude, _should_exclude_by_path, relative_to, suffix, name.
  now rewrite Hp, Hd.
Qed.

Lemma emptied_is_dir n n' : emptied n n' -> n <> File /\ n' <> File.
Proof. destruct 1; split; congruence. Qed.

Lemma build_node_emptied lower self root n n' :
  emptied n n' ->
  forall here prefix lines depth,
    build_node lower self root n here prefix lines depth =
    build_node lower self root n' here prefix lines depth.
Proof.
  induction 1 as [cs|r cs1 nm c c' cs2 Hc IH]; intros here prefix lines depth;
    (destruct (depth_reached self depth) eqn:G;
     [now rewrite !build_node_reached|]).
  - rewrite build_node_listed by assumption. simpl. now rewrite G.
  - destruct r; [|simpl; now rewrite G].
    rewrite !build_node_listed by assumption. simpl.
    set (T := fun c1 c2 : string * node =>
                parts (child here c1) = parts (child here c2) /\
                is_dir (child here c1) = is_dir (child here c2) /\
                forall p ls d,
                  build_node lower self root (snd c1) (here ++ [fst c1]) p ls d =
                  build_node lower self root (snd c2) (here ++ [fst c2]) p ls d).
    assert (HT : Forall2 T (kept lower self root here (cs1 ++ (nm, c) :: cs2))
                           (kept lower self root here (cs1 ++ (nm, c') :: cs2))).
    { unfold kept. apply filter_Forall2.
      { intros x y (Hp & Hd & _). f_equal. now apply should_exclude_same. }
      apply sorted_Forall2.
      { intros x y (Hp & Hd & _). unfold sort_key, name. now rewrite Hp, Hd. }
      apply Forall2_app; [|constructor].
      - apply Forall2_same_length_lookup_2; [reflexivity|].
        intros i x y Hx Hy. rewrite Hx in Hy. injection Hy as <-.
        repeat split; reflexivity.
      - repeat split; [|exact (IH (here ++ [nm]))].
        apply emptied_is_dir in Hc. unfold is_dir, child. simpl.
        destruct c, c'; intuition congruence.
      - apply Forall2_same_length_lookup_2; [reflexivity|].
        intros i x y Hx Hy. rewrite Hx in Hy. injection Hy as <-.
        repeat split; reflexivity. }
    rewrite (Forall2_length _ _ _ HT). apply for_each_Forall2.
    eapply Forall2_impl; [exact HT|].
    intros x y (Hp & Hd & Hb) i ls. unfold loop_body, display_name, name.
    rewrite Hp, Hd. destruct (is_dir (child here y)); [apply Hb|reflexivity].
Qed.

(** C7. A directory whose listing raises [PermissionError] is treated as
    childless: its own line is appended by the loop of its parent, the
    call on it returns the lines unchanged and raises nothing, so the
    loop goes on; and the whole output is the one the renderer gives when
    that directory is empty instead. *)
Theorem permission_denied_is_childless (lower : string -> string)
    (self : TreeGenerator) :
  (forall item prefix lines depth root,
     iterdir item = Raise PermissionError ->
     _build_tree lower self item prefix lines depth root = Ok lines) /\
  (forall item len prefix depth i lines root,
     iterdir item = Raise PermissionError ->
     loop_body id
       (fun item prefix lines depth =>
          _build_tree lower self item prefix lines depth root)
       len prefix depth i item lines =
     Ok (lines ++ [prefix +:+ current_prefix (i =? len - 1)%nat +:+ name item +:+ "/"])) /\
  (forall fs fs' directory n n',
     target (resolve fs directory) = Some n ->
     target (resolve fs' directory) = Some n' ->
     parts (resolve fs directory) = parts (resolve fs' directory) ->
     emptied n n' ->
     generate_lines lower self fs directory = generate_lines lower self fs' directory /\
     generate_tree lower self fs directory = generate_tree lower self fs' directory).
Proof.
  assert (H1 : forall item prefix lines depth root,
     iterdir item = Raise PermissionError ->
     _build_tree lower self item prefix lines depth root = Ok lines).
  { intros item prefix lines depth root Hperm.
    rewrite _build_tree_eq, Hperm. now destruct (depth_reached self depth). }
  split; [exact H1|]. split.
  - intros item len prefix depth i lines root Hperm.
    unfold loop_body, id, display_name.
    assert (is_dir item = true) as ->.
    { unfold iterdir, is_dir in *.
      destruct (target item) as [[|[] ?]|]; congruence. }
    now apply H1.
  - intros fs fs' directory n n' Hn Hn' Hp He.
    assert (generate_lines lower self fs directory =
            generate_lines lower self fs' directory) as E.
    { unfold generate_lines, exists_, _build_tree, name.
      rewrite Hn, Hn', Hp. simpl.
      destruct (depth_reached self 0); [reflexivity|].
      rewrite (build_node_emptied lower self (resolve fs directory) n n' He).
      apply build_node_congr; [|reflexivity].
      intros item. unfold _should_exclude, _should_exclude_by_path, relative_to.
      now rewrite Hp. }
    split; [exact E|]. unfold generate_tree. now rewrite E.
Qed.

(** ** Where the visits lie *)

Section Visits.
Variable lower : string -> string.
Variables (self : TreeGenerator) (root : Path).

(** Every visit lies below the place walked, as deep as its depth says,
    at a depth the guard lets through, and is not excluded. *)
Lemma walk_node_shape n here prefix depth v :
  In v (walk_node lower self root n here prefix depth) ->
  exists rest,
    rest <> [] /\
    parts (v_item v) = here ++ rest /\
    v_depth v = depth + Z.of_nat (length rest) - 1 /\
    depth_reached self (v_depth v) = false /\
    _should_exclude self (v_item v) (Some root) = false.
Proof.
  revert n here prefix depth v.
  apply (walk_node_visits_ind lower self root
    (fun here depth v =>
       exists rest,
         rest <> [] /\
         parts (v_item v) = here ++ rest /\
         v_depth v = depth + Z.of_nat (length rest) - 1 /\
         depth_reached self (v_depth v) = false /\
         _should_exclude self (v_item v) (Some root) = false)).
  - intros here depth prefix is_last c G Hx. exists [fst c]. simpl.
    repeat split; try assumption; try congruence. lia.
  - intros here depth c v G Hx Hd (rest & Hne & Hp & Hk & Hg & Hv).
    exists (fst c :: rest). rewrite Hp, <- app_assoc. simpl.
    repeat split; try assumption; try congruence. lia.
Qed.

Lemma should_exclude_dir p :
  is_dir p = true ->
  _should_exclude self p (Some root) = false ->
  name p ∉ exclude_dirs self.
Proof.
  unfold _should_exclude. intros ->.
  destruct (_should_exclude_by_path self p root); [discriminate|].
  intros H. now apply bool_decide_eq_false in H.
Qed.

(** No directory on the way to a visit, nor a visited directory itself,
    bears an excluded directory name. *)
Lemma walk_node_dir_names n here prefix depth v :
  In v (walk_node lower self root n here prefix depth) ->
  exists rest,
    rest <> [] /\
    parts (v_item v) = here ++ rest /\
    (forall nm, In nm (removelast rest) -> nm ∉ exclude_dirs self) /\
    (is_dir (v_item v) = true -> name (v_item v) ∉ exclude_dirs self).
Proof.
  revert n here prefix depth v.
  apply (walk_node_visits_ind lower self root
    (fun here depth v =>
       exists rest,
         rest <> [] /\
         parts (v_item v) = here ++ rest /\
         (forall nm, In nm (removelast rest) -> nm ∉ exclude_dirs self) /\
         (is_dir (v_item v) = true -> name (v_item v) ∉ exclude_dirs self))).
  - intros here depth prefix is_last c G Hx. exists [fst c]. simpl.
    split; [congruence|]. split; [reflexivity|]. split; [tauto|].
    intros Hd. now apply should_exclude_dir.
  - intros here depth c v G Hx Hd (rest & Hne & Hp & Hr & Hv).
    exists (fst c :: rest). rewrite Hp, <- app_assoc.
    split; [congruence|]. split; [reflexivity|]. split; [|assumption].
    intros nm Hnm. destruct rest as [|r rest]; [congruence|].
    change (In nm (fst c :: removelast (r :: rest))) in Hnm.
    destruct Hnm as [<-|Hnm]; [|now apply Hr].
    rewrite <- (name_child here c). now apply should_exclude_dir.
Qed.

Lemma in_enumerate_inv {A} (l : list A) x :
  In x l -> exists i, In (i, x) (enumerate l).
Proof.
  unfold enumerate. generalize 0%nat.
  induction l as [|y l IH]; intros s Hin; [contradiction|].
  destruct Hin as [->|Hin].
  - exists s. now left.
  - destruct (IH (S s) Hin) as [i Hi]. exists i. now right.
Qed.

Lemma walk_node_child cs here prefix depth c :
  depth_reached self depth = false ->
  In c cs ->
  _should_exclude self (child here c) (Some root) = false ->
  exists v,
    In v (walk_node lower self root (Dir true cs) here prefix depth) /\
    v_item v = child here c.
Proof.
  intros G Hin Hx.
  assert (Hk : In c (kept lower self root here cs)).
  { unfold kept. rewrite List.filter_In, sorted_In, Hx. auto. }
  apply in_enumerate_inv in Hk. destruct Hk as [i Hi].
  destruct (walk_node_intro lower self root cs here prefix depth i c G Hi) as [H _].
  eexists. split; [exact H|reflexivity].
Qed.

(** The walk below a visited entry is part of the walk. *)
Lemma walk_node_sub n :
  forall here prefix depth v m,
    In v (walk_node lower self root n here prefix depth) ->
    target (v_item v) = Some m ->
    exists prefix',
      forall w,
        In w (walk_node lower self root m (parts (v_item v)) prefix' (v_depth v + 1)) ->
        In w (walk_node lower self root n here prefix depth).
Proof.
  induction n as [|r cs IH] using node_children_ind;
    intros here prefix depth v m Hv Hm.
  - now rewrite walk_node_file in Hv.
  - apply walk_node_cases in Hv.
    destruct Hv as (cs' & i & c & E & G & Hin & Hv). injection E as -> <-.
    destruct (walk_node_intro lower self root cs here prefix depth i c G Hin)
      as [_ Hsub].
    destruct Hv as [->|[Hd Hv]].
    + simpl in *. injection Hm as <-.
      eexists. intros w Hw.
      destruct (is_dir (child here c)) eqn:Hd.
      * apply (Hsub eq_refl w Hw).
      * unfold is_dir, child in Hd. simpl in Hd.
        destruct (snd c); [|discriminate].
        now rewrite walk_node_file in Hw.
    + apply in_enumerate, in_kept in Hin. destruct Hin as [Hin _].
      rewrite List.Forall_forall in IH.
      destruct (IH c Hin _ _ _ v m Hv Hm) as [prefix' Hp].
      exists prefix'. intros w Hw. apply (Hsub Hd), Hp, Hw.
Qed.

(** Without a depth limit every visible entry is visited. *)
Lemma visible_visited item :
  (forall d, depth_reached self d = false) ->
  visible self root item ->
  exists v, In v (walk lower self root "" 0 root) /\ v_item v = item.
Proof.
  intros G. induction 1 as [listing item Hl Hin Hx | parent listing item Hp IH Hl Hin Hx].
  - unfold walk. unfold iterdir in Hl.
    destruct (target root) as [[|[] cs]|]; try discriminate.
    injection Hl as <-. apply in_map_iff in Hin. destruct Hin as (c & <- & Hin).
    now apply walk_node_child.
  - destruct IH as (v & Hv & <-). unfold iterdir in Hl.
    destruct (target (v_item v)) as [[|[] cs]|] eqn:Ht; try discriminate.
    injection Hl as <-. apply in_map_iff in Hin. destruct Hin as (c & <- & Hin).
    unfold walk in *. destruct (target root) as [n|]; [|contradiction].
    destruct (walk_node_sub n _ _ _ v _ Hv Ht) as [prefix' Hsub].
    destruct (walk_node_child cs (parts (v_item v)) prefix' (v_depth v + 1) c
                (G _) Hin Hx) as (w & Hw & Ew).
    exists w. split; [apply Hsub, Hw|exact Ew].
Qed.

End Visits.

Lemma strip_prefix_app pre rest : strip_prefix pre (pre ++ rest) = Some rest.
Proof.
  induction pre as [|a pre IH]; simpl; [reflexivity|].
  now rewrite String.eqb_refl.
Qed.


Lemma depth_reached_never self :
  max_depth self = None \/ max_depth self = Some 0 ->
  forall k, depth_reached self k = false.
Proof. unfold depth_reached. intros [-> | ->] k; reflexivity. Qed.

Lemma level_app root p rest :
  parts p = parts root ++ rest -> level root p = Z.of_nat (length rest).
Proof. unfold level. intros ->. rewrite length_app. lia. Qed.

(** C4. With [node_modules] among the excluded directory names, as in the
    default configuration, no visited entry lies below a directory named
    [node_modules], and no visited directory bears that name: such a
    directory is neither shown nor descended into, whatever the
    allow-list of extensions and the other settings are.  The lines of
    the output are those of the visits. *)
Theorem node_modules_pruned (lower : string -> string)
    (self : TreeGenerator) (fs : FileSystem) (directory : string) :
  "node_modules" ∈ exclude_dirs self ->
  let root := resolve fs directory in
  let visits := walk lower self root "" 0 root in
  (is_dir root = true ->
   generate_lines lower self fs directory =
     Ok ((name root +:+ "/") :: map v_line visits)) /\
  forall v, In v visits ->
    exists rel,
      relative_to (v_item v) root = Some rel /\
      ~ In "node_modules" (removelast rel) /\
      (is_dir (v_item v) = true -> name (v_item v) <> "node_modules").
Proof.
  intros Hnm root visits. split; [apply generate_lines_walk|].
  intros v Hv. unfold visits, walk in Hv.
  destruct (target root) as [n|]; [|contradiction].
  apply walk_node_dir_names in Hv. destruct Hv as (rest & Hne & Hp & Hr & Hdir).
  exists rest. unfold relative_to. rewrite Hp, strip_prefix_app.
  split; [reflexivity|]. split.
  - intros Hin. exact (Hr _ Hin Hnm).
  - intros Hd E. apply (Hdir Hd). now rewrite E.
Qed.

(** ** The order of the visits *)

Lemma StronglySorted_lookup {A} (R : A -> A -> Prop) l :
  StronglySorted R l ->
  forall i j x y, l !! i = Some x -> l !! j = Some y -> (i < j)%nat -> R x y.
Proof.
  induction 1 as [|a l Hl IH Ha]; intros i j x y Hi Hj Hlt.
  - discriminate.
  - destruct j as [|j]; [lia|]. simpl in Hj. destruct i as [|i].
    + injection Hi as <-. rewrite List.Forall_forall in Ha. apply Ha.
      apply list_elem_of_In. eapply list_elem_of_lookup_2. exact Hj.
    + simpl in Hi. apply (IH i j); [assumption..|lia].
Qed.

Lemma StronglySorted_flat_map {A B} (R : B -> B -> Prop) (f : A -> list B) l :
  (forall x, In x l -> StronglySorted R (f x)) ->
  StronglySorted (fun x y => forall a b, In a (f x) -> In b (f y) -> R a b) l ->
  StronglySorted R (flat_map f l).
Proof.
  intros Hin. induction 1 as [|x l Hl IH Hx]; simpl; [constructor|].
  apply StronglySorted_app_2.
  - intros a b Ha Hb. apply list_elem_of_In in Ha, Hb.
    apply in_flat_map in Hb. destruct Hb as (y & Hy & Hb).
    rewrite List.Forall_forall in Hx. exact (Hx y Hy a b Ha Hb).
  - apply Hin. now left.
  - apply IH. intros y Hy. apply Hin. now right.
Qed.

Lemma StronglySorted_combine {A B} (R : B -> B -> Prop) (l : list B) :
  StronglySorted R l ->
  forall l0 : list A,
    StronglySorted (fun x y => R (snd x) (snd y)) (combine l0 l).
Proof.
  induction 1 as [|b l Hl IH Hb]; intros [|a l0]; simpl; try constructor.
  - apply IH.
  - rewrite List.Forall_forall in Hb |- *. intros [a' b'] Hin. simpl.
    apply Hb. eapply in_combine_r. exact Hin.
Qed.

Lemma StronglySorted_weaken {A} (R R' : A -> A -> Prop) l :
  (forall x y, R x y -> R' x y) -> StronglySorted R l -> StronglySorted R' l.
Proof.
  intros HR. induction 1 as [|a l Hl IH Ha]; constructor; [assumption|].
  rewrite List.Forall_forall in Ha |- *. auto.
Qed.

Lemma StronglySorted_distinct {A B} (R : A -> A -> Prop) (f : A -> B) l :
  StronglySorted R l -> List.NoDup (map f l) ->
  StronglySorted (fun x y => R x y /\ f x <> f y) l.
Proof.
  induction 1 as [|a l Hl IH Ha]; simpl; intros Hnd; [constructor|].
  apply List.NoDup_cons_iff in Hnd. destruct Hnd as [Hnot Hnd].
  constructor; [now apply IH|].
  rewrite List.Forall_forall in Ha |- *. intros x Hx. split; [now apply Ha|].
  intros E. apply Hnot. rewrite E. now apply in_map.
Qed.

Lemma NoDup_map_filter {A B} (f : A -> B) (p : A -> bool) l :
  List.NoDup (map f l) -> List.NoDup (map f (List.filter p l)).
Proof.
  induction l as [|a l IH]; simpl; intros Hnd; [constructor|].
  apply List.NoDup_cons_iff in Hnd. destruct Hnd as [Hnot Hnd].
  destruct (p a); simpl; [|now apply IH].
  apply List.NoDup_cons_iff. split; [|now apply IH].
  intros Hin. apply Hnot. apply in_map_iff in Hin.
  destruct Hin as (x & <- & Hx). apply List.filter_In in Hx. apply in_map, Hx.
Qed.

Lemma nodupb_NoDup l : nodupb l = true -> List.NoDup l.
Proof.
  induction l as [|x l IH]; simpl; intros H; [constructor|].
  apply andb_prop in H. destruct H as [Hx Hl].
  apply List.NoDup_cons_iff. split; [|now apply IH].
  intros Hin. apply negb_true_iff in Hx.
  assert (existsb (String.eqb x) l = true); [|congruence].
  apply existsb_exists. exists x. split; [assumption|apply String.eqb_refl].
Qed.

Lemma wf_node_Dir r cs :
  wf_node (Dir r cs) = true ->
  List.NoDup (map fst cs) /\ forall c, In c cs -> wf_node (snd c) = true.
Proof.
  simpl. intros H. apply andb_prop in H. destruct H as [Hn Hc]. split.
  - now apply nodupb_NoDup.
  - intros c Hin. rewrite forallb_forall in Hc. now apply Hc.
Qed.

Section Order.
Variable lower : string -> string.
Variables (self : TreeGenerator) (root : Path).

(** The kept children are in sibling order and bear distinct names. *)
Lemma kept_ordered here cs :
  List.NoDup (map fst cs) ->
  StronglySorted
    (fun c c' =>
       key_le key_lt (fun c => sort_key lower (child here c)) c c' /\ fst c <> fst c')
    (kept lower self root here cs).
Proof.
  intros Hnd. apply StronglySorted_distinct.
  - unfold kept. apply filter_strongly, sorted_strongly.
    + intros a b. apply key_lt_asym.
    + intros x y z. apply key_le_trans.
  - unfold kept. apply NoDup_map_filter.
    eapply Permutation_NoDup; [|exact Hnd].
    apply Permutation_map. symmetry. apply sorted_perm.
Qed.

Lemma walk_node_ordered (R : visit -> visit -> Prop) :
  (forall here c v w,
     v_item v = child here c ->
     (exists rest, rest <> [] /\ parts (v_item w) = (here ++ [fst c]) ++ rest) ->
     R v w) ->
  (forall here c c' v w,
     key_le key_lt (fun c => sort_key lower (child here c)) c c' ->
     fst c <> fst c' ->
     in_block here c v -> in_block here c' w -> R v w) ->
  forall n, wf_node n = true ->
  forall here prefix depth,
    StronglySorted R (walk_node lower self root n here prefix depth).
Proof.
  intros Hhead Hacross.
  induction n as [|r cs IH] using node_children_ind; intros Hwf here prefix depth.
  { rewrite walk_node_file. constructor. }
  destruct (depth_reached self depth) eqn:G.
  { rewrite walk_node_reached by assumption. constructor. }
  destruct r; [|rewrite walk_node_denied; constructor].
  apply wf_node_Dir in Hwf. destruct Hwf as [Hnd Hwf].
  rewrite walk_node_listed by assumption. simpl.
  assert (Hblock : forall i c v,
            In v (walk_step (child here)
                    (fun c => walk_node lower self root (snd c) (here ++ [fst c]))
                    (length (kept lower self root here cs)) prefix depth (i, c)) ->
            in_block here c v).
  { intros i c v [<-|Hv]; [now left|]. right. simpl in Hv.
    destruct (is_dir (child here c)); [|contradiction].
    apply walk_node_shape in Hv. destruct Hv as (rest & Hne & Hp & _).
    now exists rest. }
  apply StronglySorted_flat_map.
  - intros [i c] Hin. unfold walk_step. simpl.
    pose proof Hin as Hc. apply in_enumerate, in_kept in Hc. destruct Hc as [Hc _].
    destruct (is_dir (child here c)); [|repeat constructor].
    constructor.
    + rewrite List.Forall_forall in IH. apply (IH c Hc). now apply Hwf.
    + apply List.Forall_forall. intros w Hw. apply (Hhead here c); [reflexivity|].
      apply walk_node_shape in Hw. destruct Hw as (rest & Hne & Hp & _).
      now exists rest.
  - eapply StronglySorted_weaken;
      [|apply (StronglySorted_combine _ _ (kept_ordered here cs Hnd))].
    intros [i c] [i' c'] [Hle Hne] v w Hv Hw. simpl in *.
    apply (Hacross here c c'); try assumption; eapply Hblock; eassumption.
Qed.

End Order.

Lemma parent_parts_child here c : parent_parts (child here c) = here.
Proof. unfold parent_parts, child. simpl. apply removelast_last. Qed.

Lemma parent_parts_below p (here : list string) a rest :
  rest <> [] -> parts p = (here ++ [a]) ++ rest ->
  parent_parts p = (here ++ [a]) ++ removelast rest.
Proof. unfold parent_parts. intros Hne ->. now apply removelast_app. Qed.

Lemma below_not_here (here : list string) a rest : here <> (here ++ [a]) ++ rest.
Proof.
  intros E. apply (f_equal (@length string)) in E.
  rewrite !length_app in E. simpl in E. lia.
Qed.

Lemma below_same_name (here : list string) a b x y :
  (here ++ [a]) ++ x = (here ++ [b]) ++ y -> a = b.
Proof.
  rewrite <- !app_assoc. intros E. apply app_inv_head in E. now injection E.
Qed.

Lemma key_le_sibling lower here c c' :
  key_le key_lt (fun c => sort_key lower (child here c)) c c' ->
  sibling_le lower (child here c) (child here c').
Proof.
  unfold key_le, sibling_le. rewrite key_lt_false. unfold sort_key. simpl.
  intros [H1 H2]. split.
  - intros Hd. rewrite Hd in H1. specialize (H1 eq_refl).
    now apply negb_false_iff in H1.
  - intros E. apply H2. now rewrite E.
Qed.

(** C5. Within a sibling group, the entries of one directory taken in the
    order of their lines, every directory comes before every file, and
    within the directories and within the files the names, compared
    case-insensitively, ascend. *)
Theorem ordering_law (lower : string -> string)
    (self : TreeGenerator) (fs : FileSystem) (directory : string) :
  is_dir (resolve fs directory) = true ->
  wf_path (resolve fs directory) = true ->
  let root := resolve fs directory in
  let visits := walk lower self root "" 0 root in
  generate_lines lower self fs directory =
    Ok ((name root +:+ "/") :: map v_line visits) /\
  forall i j v w,
    visits !! i = Some v -> visits !! j = Some w -> (i < j)%nat ->
    parent_parts (v_item v) = parent_parts (v_item w) ->
    sibling_le lower (v_item v) (v_item w).
Proof.
  intros Hd Hwf root visits. split; [now apply generate_lines_walk|].
  apply (StronglySorted_lookup
           (fun v w => parent_parts (v_item v) = parent_parts (v_item w) ->
                       sibling_le lower (v_item v) (v_item w)) visits).
  unfold visits, walk, wf_path in *. fold root in Hwf.
  destruct (target root) as [n|]; [|constructor].
  apply walk_node_ordered; [| |exact Hwf].
  - intros here c v w Hv (rest & Hne & Hp) E. exfalso.
    rewrite Hv, parent_parts_child in E.
    rewrite (parent_parts_below _ _ _ _ Hne Hp) in E.
    now apply below_not_here in E.
  - intros here c c' v w Hle Hne [Hv|(r1 & Hn1 & Hp1)] [Hw|(r2 & Hn2 & Hp2)] E.
    + rewrite Hv, Hw. now apply key_le_sibling.
    + exfalso. rewrite Hv, parent_parts_child in E.
      rewrite (parent_parts_below _ _ _ _ Hn2 Hp2) in E.
      now apply below_not_here in E.
    + exfalso. rewrite Hw, parent_parts_child in E.
      rewrite (parent_parts_below _ _ _ _ Hn1 Hp1) in E.
      symmetry in E. now apply below_not_here in E.
    + exfalso. rewrite (parent_parts_below _ _ _ _ Hn1 Hp1) in E.
      rewrite (parent_parts_below _ _ _ _ Hn2 Hp2) in E.
      now apply below_same_name in E.
Qed.

(** C8. The output is a function of the snapshot and the configuration:
    two invocations return the same text, and what a call of
    [_build_tree] appends does not depend on the lines accumulated before
    it.  The lines come in pre-order: the line of a directory precedes
    the line of each of its children. *)
Theorem deterministic_preorder (lower : string -> string)
    (self : TreeGenerator) (fs : FileSystem) (directory : string) :
  (forall out1 out2,
     generate_tree lower self fs directory = out1 ->
     generate_tree lower self fs directory = out2 ->
     out1 = out2) /\
  (forall path prefix lines depth root,
     is_dir path = true ->
     _build_tree lower self path prefix lines depth root =
     Ok (lines ++ map v_line (walk lower self path prefix depth root))) /\
  (is_dir (resolve fs directory) = true ->
   wf_path (resolve fs directory) = true ->
   let root := resolve fs directory in
   let visits := walk lower self root "" 0 root in
   generate_lines lower self fs directory =
     Ok ((name root +:+ "/") :: map v_line visits) /\
   forall i j v w,
     visits !! i = Some v -> visits !! j = Some w ->
     parent_parts (v_item w) = parts (v_item v) ->
     (i < j)%nat).
Proof.
  split; [congruence|]. split; [intros; now apply _build_tree_walk|].
  intros Hd Hwf root visits. split; [now apply generate_lines_walk|].
  assert (Hs : StronglySorted
                 (fun v w => parent_parts (v_item v) <> parts (v_item w)) visits).
  { unfold visits, walk, wf_path in *. fold root in Hwf.
    destruct (target root) as [n|]; [|constructor].
    apply walk_node_ordered; [| |exact Hwf].
    - intros here c v w Hv (rest & Hne & Hp) E.
      rewrite Hv, parent_parts_child, Hp in E. now apply below_not_here in E.
    - intros here c c' v w Hle Hne [Hv|(r1 & Hn1 & Hp1)] Hw E.
      + rewrite Hv, parent_parts_child in E.
        destruct Hw as [Hw|(r2 & Hn2 & Hp2)].
        * rewrite Hw in E. simpl in E.
          apply (below_not_here here (fst c') []). now rewrite app_nil_r.
        * rewrite Hp2 in E. now apply below_not_here in E.
      + rewrite (parent_parts_below _ _ _ _ Hn1 Hp1) in E.
        destruct Hw as [Hw|(r2 & Hn2 & Hp2)].
        * rewrite Hw in E. simpl in E.
          apply Hne, (below_same_name here _ _ (removelast r1) []).
          now rewrite app_nil_r.
        * rewrite Hp2 in E. apply Hne. exact (below_same_name _ _ _ _ _ E). }
  intros i j v w Hi Hj E.
  destruct (Nat.lt_trichotomy i j) as [Hlt|[->|Hgt]]; [exact Hlt| |].
  - exfalso. rewrite Hi in Hj. injection Hj as <-.
    unfold visits, walk in Hi. destruct (target root) as [n|]; [|discriminate].
    apply list_elem_of_lookup_2, list_elem_of_In, walk_node_shape in Hi.
    destruct Hi as (rest & Hne & Hp & _).
    unfold parent_parts in E. apply (f_equal (@length string)) in E.
    rewrite Hp, removelast_app, !length_app in E by assumption.
    destruct rest as [|a rest] using rev_ind; [congruence|].
    rewrite removelast_last, length_app in E. simpl in E. lia.
  - exfalso. exact (StronglySorted_lookup _ _ Hs j i w v Hj Hi Hgt E).
Qed.

(** ** The sample project *)

Example sample_default_output :
  generate_lines Str.lower_ascii Sample.default_generator Sample.fs "proj" =
  Ok ["proj/"; "├── lib/"; "│   └── a/"; "│       └── b.ts";
      "├── secret/"; "├── src/"; "│   ├── App.tsx"; "│   └── index.ts";
      "└── README.md"].
Proof. vm_compute. reflexivity. Qed.

Example sample_depth_one_output :
  generate_lines Str.lower_ascii
    (with_max_depth Sample.default_generator (Some 1)) Sample.fs "proj" =
  Ok ["proj/"; "├── lib/"; "├── secret/"; "├── src/"; "└── README.md"].
Proof. vm_compute. reflexivity. Qed.

Example sample_allow_list_output :
  generate_lines Str.lower_ascii
    (__init__ (MkConfig None None None (Some (Some [".ts"])) None None))
    Sample.fs "proj" =
  Ok ["proj/"; "├── lib/"; "│   └── a/"; "│       └── b.ts";
      "├── secret/"; "└── src/"; "    └── index.ts"].
Proof. vm_compute. reflexivity. Qed.

(** C1. The depth law asks for the header alone when the maximum depth
    is 0.  The guard of [_build_tree] tests the maximum depth for truth
    before it compares, and 0 is false: at this input the renderer returns
    the whole tree, with entries up to three levels below the root, where
    the maximum depths 1 and -1 are honoured. *)
Lemma depth_zero_renders_the_tree :
  max_depth (with_max_depth Sample.default_generator (Some 0)) = Some 0 /\
  generate_lines Str.lower_ascii
    (with_max_depth Sample.default_generator (Some 0)) Sample.fs "proj" =
  Ok ["proj/"; "├── lib/"; "│   └── a/"; "│       └── b.ts";
      "├── secret/"; "├── src/"; "│   ├── App.tsx"; "│   └── index.ts";
      "└── README.md"] /\
  ~ (forall v,
       In v (walk Str.lower_ascii
               (with_max_depth Sample.default_generator (Some 0))
               Sample.root "" 0 Sample.root) ->
       level Sample.root (v_item v) <= 0) /\
  generate_lines Str.lower_ascii
    (with_max_depth Sample.default_generator (Some 1)) Sample.fs "proj" =
  Ok ["proj/"; "├── lib/"; "├── secret/"; "├── src/"; "└── README.md"] /\
  generate_lines Str.lower_ascii
    (with_max_depth Sample.default_generator (Some (-1))) Sample.fs "proj" =
  Ok ["proj/"].
Proof.
  split; [reflexivity|]. split; [vm_compute; reflexivity|]. split.
  - intros H.
    specialize (H (MkVisit (child ["home"; "proj"] ("README.md", File)) 0 "" true)).
    assert (Hin : In (MkVisit (child ["home"; "proj"] ("README.md", File)) 0 "" true)
                    (walk Str.lower_ascii
                       (with_max_depth Sample.default_generator (Some 0))
                       Sample.root "" 0 Sample.root)).
    { vm_compute. do 7 right. left. reflexivity. }
    specialize (H Hin). vm_compute in H. apply H. reflexivity.
  - split; vm_compute; reflexivity.
Qed.

(** ** The claims at the sample project *)

Lemma node_modules_excluded_by_default :
  "node_modules" ∈ exclude_dirs Sample.default_generator.
Proof.
  apply (bool_decide_unpack ("node_modules" ∈ exclude_dirs Sample.default_generator)).
  vm_compute. exact I.
Qed.

Lemma sample_emptied : emptied Sample.project Sample.project_emptied.
Proof.
  apply (emptied_in true
           [ ("src", Dir true [("index.ts", File); ("App.tsx", File)]);
             ("node_modules", Dir true [("pkg", Dir true [("index.js", File)])]);
             ("README.md", File);
             (".env", File) ]
           "secret" (Dir false [("key.pem", File)]) (Dir true [])).
  apply emptied_here.
Qed.

Lemma should_exclude_rule_order_witness :
  rule_path_substring Sample.default_generator Sample.nested_node_modules Sample.root
    = NextRule /\
  is_dir Sample.nested_node_modules = true /\
  _should_exclude Sample.default_generator Sample.nested_node_modules (Some Sample.root) =
  bool_decide (name Sample.nested_node_modules ∈ exclude_dirs Sample.default_generator).
Proof.
  split; [vm_compute; reflexivity|]. split; [reflexivity|].
  apply (should_exclude_rule_order Sample.default_generator
           Sample.nested_node_modules Sample.root).
  - vm_compute. reflexivity.
  - reflexivity.
Defined.

Lemma node_modules_pruned_witness :
  "node_modules" ∈ exclude_dirs Sample.default_generator /\
  forall v,
    In v (walk Str.lower_ascii Sample.default_generator Sample.root "" 0 Sample.root) ->
    exists rel,
      relative_to (v_item v) Sample.root = Some rel /\
      ~ In "node_modules" (removelast rel) /\
      (is_dir (v_item v) = true -> name (v_item v) <> "node_modules").
Proof.
  split; [exact node_modules_excluded_by_default|].
  apply (node_modules_pruned Str.lower_ascii Sample.default_generator Sample.fs "proj"
           node_modules_excluded_by_default).
Defined.

Lemma ordering_law_witness :
  is_dir (resolve Sample.fs "proj") = true /\
  wf_path (resolve Sample.fs "proj") = true /\
  sibling_le Str.lower_ascii
    (child ["home"; "proj"] ("src", Dir true [("index.ts", File); ("App.tsx", File)]))
    (child ["home"; "proj"] ("README.md", File)).
Proof.
  split; [reflexivity|]. split; [reflexivity|].
  apply (proj2 (ordering_law Str.lower_ascii Sample.default_generator
                  Sample.fs "proj" eq_refl eq_refl)
           4%nat 7%nat
           (MkVisit (child ["home"; "proj"]
                       ("src", Dir true [("index.ts", File); ("App.tsx", File)]))
                    0 "" false)
           (MkVisit (child ["home"; "proj"] ("README.md", File)) 0 "" true)).
  - vm_compute. reflexivity.
  - vm_compute. reflexivity.
  - lia.
  - reflexivity.
Defined.

Lemma not_found_only_at_start_witness :
  exists_ (resolve Sample.fs "gone") = false /\
  generate_tree Str.lower_ascii Sample.default_generator Sample.fs "gone" =
    Raise (ValueError ("Directory '" +:+ "gone" +:+ "' does not exist")) /\
  exists_ (resolve Sample.fs "proj") = true /\
  forall msg,
    generate_tree Str.lower_ascii Sample.default_generator Sample.fs "proj" <>
    Raise (ValueError msg).
Proof.
  split; [reflexivity|]. split.
  - apply (not_found_only_at_start Str.lower_ascii Sample.default_generator
             Sample.fs "gone"). reflexivity.
  - split; [reflexivity|].
    apply (not_found_only_at_start Str.lower_ascii Sample.default_generator
             Sample.fs "proj"). reflexivity.
Defined.

Lemma permission_denied_is_childless_witness :
  emptied Sample.project Sample.project_emptied /\
  generate_tree Str.lower_ascii Sample.default_generator Sample.fs "proj" =
  generate_tree Str.lower_ascii Sample.default_generator Sample.fs_emptied "proj" /\
  _build_tree Str.lower_ascii Sample.default_generator
    (child ["home"; "proj"] ("secret", Dir false [("key.pem", File)]))
    "│   " ["proj/"; "├── secret/"] 1 Sample.root =
  Ok ["proj/"; "├── secret/"].
Proof.
  split; [exact sample_emptied|]. split.
  - apply (proj2 (proj2 (permission_denied_is_childless Str.lower_ascii
                           Sample.default_generator))
             Sample.fs Sample.fs_emptied "proj" Sample.project Sample.project_emptied
             eq_refl eq_refl eq_refl sample_emptied).
  - apply (permission_denied_is_childless Str.lower_ascii Sample.default_generator).
    reflexivity.
Defined.

Lemma deterministic_preorder_witness :
  is_dir (resolve Sample.fs "proj") = true /\
  wf_path (resolve Sample.fs "proj") = true /\
  forall i j v w,
    walk Str.lower_ascii Sample.default_generator Sample.root "" 0 Sample.root !! i
      = Some v ->
    walk Str.lower_ascii Sample.default_generator Sample.root "" 0 Sample.root !! j
      = Some w ->
    parent_parts (v_item w) = parts (v_item v) ->
    (i < j)%nat.
Proof.
  split; [reflexivity|]. split; [reflexivity|].
  apply (proj2 (proj2 (deterministic_preorder Str.lower_ascii Sample.default_generator
                         Sample.fs "proj")) eq_refl eq_refl).
Defined.

Lemma denied_root_gives_header_witness :
  iterdir (resolve Sample.fs "locked") = Raise PermissionError /\
  generate_tree Str.lower_ascii Sample.default_generator Sample.fs "locked" =
  Ok "locked/".
Proof.
  split; [reflexivity|].
  apply (denied_root_gives_header Str.lower_ascii Sample.default_generator
           Sample.fs "locked" eq_refl).
Defined.

(** ** The order of a listing does not matter

    [sorted] puts the entries of a listing in an order of its own, so the
    output is the same for any order in which [iterdir] yields them, as
    long as no two entries of a directory share a sort key. *)

Lemma key_eqb_eq k1 k2 : key_eqb k1 k2 = true <-> k1 = k2.
Proof.
  destruct k1 as [b1 s1], k2 as [b2 s2]. unfold key_eqb. simpl.
  rewrite andb_true_iff, Bool.eqb_true_iff, String.eqb_eq.
  split; [intros [-> ->]; reflexivity | intros [= -> ->]; auto].
Qed.

Lemma nodup_keysb_NoDup l : nodup_keysb l = true -> List.NoDup l.
Proof.
  induction l as [|k l IH]; simpl; intros H; [constructor|].
  apply andb_prop in H. destruct H as [Hk Hl].
  apply List.NoDup_cons_iff. split; [|now apply IH].
  intros Hin. apply negb_true_iff in Hk.
  assert (existsb (key_eqb k) l = true); [|congruence].
  apply existsb_exists. exists k. split; [assumption|now apply key_eqb_eq].
Qed.

Lemma NoDup_map_inj_in {A B} (f : A -> B) l x y :
  List.NoDup (map f l) -> In x l -> In y l -> f x = f y -> x = y.
Proof.
  induction l as [|a l IH]; simpl; intros Hnd Hx Hy E; [contradiction|].
  apply List.NoDup_cons_iff in Hnd. destruct Hnd as [Hnot Hnd].
  destruct Hx as [->|Hx], Hy as [->|Hy]; auto.
  - exfalso. apply Hnot. rewrite E. now apply in_map.
  - exfalso. apply Hnot. rewrite <- E. now apply in_map.
Qed.

Lemma key_le_antisym {A} (key : A -> bool * string) x y :
  key_le key_lt key x y -> key_le key_lt key y x -> key x = key y.
Proof.
  unfold key_le. rewrite !key_lt_false. intros [H1 H2] [H3 H4].
  destruct (key x) as [b1 s1], (key y) as [b2 s2]. simpl in *.
  assert (b1 = b2) as ->.
  { destruct b1, b2; try reflexivity.
    - now apply H1.
    - symmetry. now apply H3. }
  f_equal. apply (anti_symm String.le); auto.
Qed.

Lemma sorted_perm_unique {A} (key : A -> bool * string) l1 l2 :
  Permutation l1 l2 -> List.NoDup (map key l1) ->
  sorted key_lt key l1 = sorted key_lt key l2.
Proof.
  intros Hp Hnd.
  apply (StronglySorted_unique_strong (key_le key_lt key)).
  - intros x y Hx Hy Hxy Hyx.
    apply list_elem_of_In, sorted_In in Hx.
    apply list_elem_of_In, sorted_In in Hy.
    apply (Permutation_in _ (Permutation_sym Hp)) in Hy.
    apply (NoDup_map_inj_in key l1); try assumption.
    now apply key_le_antisym.
  - apply sorted_strongly; [apply key_lt_asym|apply key_le_trans].
  - apply sorted_strongly; [apply key_lt_asym|apply key_le_trans].
  - rewrite !sorted_perm. exact Hp.
Qed.

Lemma sort_key_child lower here c :
  sort_key lower (child here c) = entry_key lower c.
Proof.
  unfold entry_key, sort_key. rewrite !name_child. reflexivity.
Qed.

Lemma reordered_same_kind n n' : reordered n n' -> (n = File <-> n' = File).
Proof. destruct 1; split; congruence. Qed.

Lemma distinct_keys_Dir lower r cs :
  distinct_keys lower (Dir r cs) = true ->
  List.NoDup (map (entry_key lower) cs) /\
  forall c, In c cs -> distinct_keys lower (snd c) = true.
Proof.
  simpl. intros H. apply andb_prop in H. destruct H as [Hn Hc]. split.
  - now apply nodup_keysb_NoDup.
  - intros c Hin. rewrite forallb_forall in Hc. now apply Hc.
Qed.

Lemma build_node_reordered lower self root n :
  distinct_keys lower n = true ->
  forall n', reordered n n' ->
  forall here prefix lines depth,
    build_node lower self root n here prefix lines depth =
    build_node lower self root n' here prefix lines depth.
Proof.
  induction n as [|r cs IH] using node_children_ind;
    intros Hk n' Hre here prefix lines depth.
  { inversion Hre. reflexivity. }
  inversion Hre as [|r' cs0 mid cs' Hf Hp]; subst.
  destruct (depth_reached self depth) eqn:G.
  { now rewrite !build_node_reached. }
  destruct r; [|simpl; now rewrite G].
  apply distinct_keys_Dir in Hk. destruct Hk as [Hnd Hk].
  rewrite !build_node_listed by assumption. simpl.
  set (T := fun c1 c2 : string * node =>
              parts (child here c1) = parts (child here c2) /\
              is_dir (child here c1) = is_dir (child here c2) /\
              forall p ls d,
                build_node lower self root (snd c1) (here ++ [fst c1]) p ls d =
                build_node lower self root (snd c2) (here ++ [fst c2]) p ls d).
  assert (HT0 : Forall2 T cs mid).
  { rewrite List.Forall_forall in IH.
    clear Hp Hre Hnd. induction Hf as [|c c' l l' [Hn Hr] Hf IHf]; constructor.
    - repeat split.
      + unfold child. simpl. now rewrite Hn.
      + apply reordered_same_kind in Hr. unfold is_dir, child. simpl.
        destruct (snd c), (snd c'); intuition congruence.
      + intros p ls d. rewrite <- Hn.
        apply (IH c); [now left|apply Hk; now left|exact Hr].
    - apply IHf.
      + intros x Hx. apply IH. now right.
      + intros x Hx. apply Hk. now right. }
  assert (Hkeys : map (entry_key lower) cs = map (entry_key lower) mid).
  { clear -HT0. induction HT0 as [|c c' l l' (Hp & Hd & _) _ IHl]; simpl; [reflexivity|].
    f_equal; [|exact IHl].
    rewrite <- !(sort_key_child lower here). unfold sort_key, name. now rewrite Hp, Hd. }
  assert (HT : Forall2 T (kept lower self root here cs) (kept lower self root here mid)).
  { unfold kept. apply filter_Forall2.
    { intros x y (Hx & Hd & _). f_equal. now apply should_exclude_same. }
    apply sorted_Forall2; [|exact HT0].
    intros x y (Hx & Hd & _). unfold sort_key, name. now rewrite Hx, Hd. }
  assert (kept lower self root here mid = kept lower self root here cs') as <-.
  { unfold kept. f_equal. apply sorted_perm_unique; [exact Hp|].
    rewrite Hkeys in Hnd.
    erewrite map_ext; [exact Hnd|]. intros c. apply sort_key_child. }
  rewrite (Forall2_length _ _ _ HT). apply for_each_Forall2.
  eapply Forall2_impl; [exact HT|].
  intros x y (Hx & Hd & Hb) i ls. unfold loop_body, display_name, name.
  rewrite Hx, Hd. destruct (is_dir (child here y)); [apply Hb|reflexivity].
Qed.

(** Two snapshots that hold the same entries in different listing orders
    render to the same text. *)
Lemma listing_order_irrelevant lower self fs fs' directory n n' :
  target (resolve fs directory) = Some n ->
  target (resolve fs' directory) = Some n' ->
  parts (resolve fs directory) = parts (resolve fs' directory) ->
  distinct_keys lower n = true ->
  reordered n n' ->
  generate_tree lower self fs directory = generate_tree lower self fs' directory.
Proof.
  intros Hn Hn' Hp Hk Hre.
  unfold generate_tree, generate_lines, exists_, _build_tree, name.
  rewrite Hn, Hn', Hp. simpl.
  destruct (depth_reached self 0); [reflexivity|].
  rewrite (build_node_reordered lower self (resolve fs directory) n Hk n' Hre).
  rewrite (build_node_congr lower self self (resolve fs directory) (resolve fs' directory));
    [reflexivity| |reflexivity].
  intros item. unfold _should_exclude, _should_exclude_by_path, relative_to.
  now rewrite Hp.
Qed.

Example sample_reordered_output :
  generate_lines Str.lower_ascii Sample.default_generator
    (MkFileSystem (fun _ => MkPath ["home"; "proj"] (Some Sample.project_reordered)))
    "proj" =
  generate_lines Str.lower_ascii Sample.default_generator Sample.fs "proj".
Proof. vm_compute. reflexivity. Qed.

(** * Further properties of the renderer *)

(** ** What a call appends *)

Lemma walk_not_dir lower self path prefix depth root :
  is_dir path = false -> walk lower self path prefix depth root = [].
Proof.
  unfold is_dir, walk. destruct (target path) as [[|r cs]|]; try discriminate;
    intros _; [apply walk_node_file|reflexivity].
Qed.

Lemma _build_tree_ok_lines lower self path prefix lines depth root out :
  _build_tree lower self path prefix lines depth root = Ok out ->
  out = lines ++ map v_line (walk lower self path prefix depth root).
Proof.
  intros H. destruct (is_dir path) eqn:Hd.
  - rewrite _build_tree_walk in H by assumption. now injection H as <-.
  - rewrite (walk_not_dir lower self path prefix depth root Hd). simpl.
    unfold _build_tree, is_dir in *.
    destruct (depth_reached self depth) eqn:G.
    + injection H as <-. now rewrite app_nil_r.
    + destruct (target path) as [[|r cs]|]; try discriminate.
      simpl in H. rewrite G in H. discriminate.
Qed.

(** [_build_tree] only ever appends: whenever a call returns, on any path
    at all, the lines it was given are an untouched prefix of its result,
    and what follows them are the lines of the visits, which do not depend
    on the lines given: the same call on other lines returns as well, with
    the same lines appended. *)
Theorem build_tree_appends (lower : string -> string) (self : TreeGenerator)
    (path : Path) (prefix : string) (lines : list string) (depth : Z)
    (root : Path) (out : list string) :
  _build_tree lower self path prefix lines depth root = Ok out ->
  out = lines ++ map v_line (walk lower self path prefix depth root) /\
  forall lines',
    _build_tree lower self path prefix lines' depth root =
    Ok (lines' ++ map v_line (walk lower self path prefix depth root)).
Proof.
  intros H. split; [now apply _build_tree_ok_lines|]. intros lines'.
  destruct (is_dir path) eqn:Hd; [now apply _build_tree_walk|].
  rewrite (walk_not_dir lower self path prefix depth root Hd), app_nil_r.
  unfold _build_tree, is_dir in *.
  destruct (depth_reached self depth) eqn:G; [reflexivity|].
  destruct (target path) as [[|r cs]|]; try discriminate.
  simpl in H. rewrite G in H. discriminate.
Qed.

Lemma join_cons_prefix sep x l : String.prefix x (Str.join sep (x :: l)) = true.
Proof.
  assert (Hp : forall a b, String.prefix a (a +:+ b) = true).
  { induction a as [|c a IH]; intros b; simpl.
    - now destruct b.
    - destruct (ascii_dec c c); [apply IH|congruence]. }
  unfold Str.join. simpl. destruct l; [|apply Hp].
  induction x as [|c x IH]; simpl; [reflexivity|].
  destruct (ascii_dec c c); [apply IH|congruence].
Qed.

(** Whenever the renderer returns, its first line is the root's name
    followed by a slash, the other lines are those of the visits, and the
    text begins with that header. *)
Theorem header_comes_first (lower : string -> string) (self : TreeGenerator)
    (fs : FileSystem) (directory : string) (text : string) :
  generate_tree lower self fs directory = Ok text ->
  let root := resolve fs directory in
  generate_lines lower self fs directory =
    Ok ((name root +:+ "/") :: map v_line (walk lower self root "" 0 root)) /\
  String.prefix (name root +:+ "/") text = true.
Proof.
  intros H root. unfold generate_tree in H.
  destruct (generate_lines lower self fs directory) as [lines|e] eqn:E;
    [|discriminate].
  injection H as <-. unfold generate_lines in E. fold root in E.
  destruct (exists_ root); [|discriminate]. simpl in E.
  apply _build_tree_ok_lines in E. subst lines. simpl.
  split; [reflexivity|]. apply join_cons_prefix.
Qed.

(** A root that exists but is a regular file is not reported as missing:
    the listing raises [NotADirectoryError], which nothing catches, unless
    a negative maximum depth stops the traversal before the listing, in
    which case the file is rendered as if it were an empty directory. *)
Theorem file_root_is_not_a_directory (lower : string -> string)
    (self : TreeGenerator) (fs : FileSystem) (directory : string) :
  target (resolve fs directory) = Some File ->
  (depth_reached self 0 = false ->
   generate_tree lower self fs directory = Raise NotADirectoryError) /\
  (forall d, max_depth self = Some d -> d < 0 ->
   generate_tree lower self fs directory = Ok (name (resolve fs directory) +:+ "/")).
Proof.
  intros Ht. unfold generate_tree, generate_lines, exists_, _build_tree.
  rewrite Ht. simpl. split.
  - intros ->. reflexivity.
  - intros d Hm Hd.
    assert (depth_reached self 0 = true) as ->; [|reflexivity].
    unfold depth_reached, truthy_int. rewrite Hm.
    destruct (Z.eqb_spec d 0); [lia|]. simpl. apply Z.leb_le. lia.
Qed.

Lemma contents_all_excluded lower self root listing :
  (forall item, In item listing -> _should_exclude self item (Some root) = true) ->
  contents_of lower self root listing = [].
Proof.
  intros Hx. unfold contents_of.
  destruct (List.filter _ _) as [|x l] eqn:F; [reflexivity|].
  assert (Hin : In x (List.filter
                   (fun item => negb (_should_exclude self item (Some root)))
                   (sorted key_lt (sort_key lower) listing))).
  { rewrite F. now left. }
  apply List.filter_In in Hin. destruct Hin as [Hin Hk].
  apply sorted_In in Hin. rewrite (Hx x Hin) in Hk. discriminate.
Qed.

Lemma generate_lines_all_excluded lower self fs directory listing :
  iterdir (resolve fs directory) = Ok listing ->
  (forall item, In item listing ->
     _should_exclude self item (Some (resolve fs directory)) = true) ->
  generate_lines lower self fs directory = Ok [name (resolve fs directory) +:+ "/"].
Proof.
  intros Hl Hx. unfold generate_lines, exists_. rewrite _build_tree_eq, Hl.
  unfold iterdir in Hl.
  destruct (target (resolve fs directory)) as [[|[] cs]|]; try discriminate.
  simpl. destruct (depth_reached self 0); [reflexivity|].
  now rewrite contents_all_excluded.
Qed.

(** A directory all of whose entries are excluded, an empty one included,
    renders to the header alone. *)
Theorem all_excluded_gives_header (lower : string -> string)
    (self : TreeGenerator) (fs : FileSystem) (directory : string)
    (listing : list Path) :
  iterdir (resolve fs directory) = Ok listing ->
  (forall item, In item listing ->
     _should_exclude self item (Some (resolve fs directory)) = true) ->
  generate_lines lower self fs directory = Ok [name (resolve fs directory) +:+ "/"] /\
  generate_tree lower self fs directory = Ok (name (resolve fs directory) +:+ "/").
Proof.
  intros Hl Hx.
  pose proof (generate_lines_all_excluded lower self fs directory listing Hl Hx) as E.
  split; [exact E|]. unfold generate_tree. now rewrite E.
Qed.

(** ** The visits are the visible entries *)

Lemma iterdir_listed p cs :
  target p = Some (Dir true cs) -> iterdir p = Ok (map (child (parts p)) cs).
Proof. unfold iterdir. now intros ->. Qed.

Lemma walk_node_visible lower self root n :
  forall here prefix depth p,
    target p = Some n -> parts p = here ->
    p = root \/ visible self root p ->
    forall v, In v (walk_node lower self root n here prefix depth) ->
      visible self root (v_item v).
Proof.
  induction n as [|r cs IH] using node_children_ind;
    intros here prefix depth p Ht Hp Hvis v Hv.
  { now rewrite walk_node_file in Hv. }
  apply walk_node_cases in Hv.
  destruct Hv as (cs' & i & c & E & G & Hin & Hv). injection E as -> <-.
  apply in_enumerate, in_kept in Hin. destruct Hin as [Hin Hx].
  assert (Hitem : visible self root (child here c)).
  { assert (Hl : In (child here c) (map (child (parts p)) cs)).
    { rewrite Hp. now apply in_map. }
    pose proof (iterdir_listed p cs Ht) as Hit.
    destruct Hvis as [E|Hvis].
    - rewrite E in Hit, Hl. exact (visible_top self root _ _ Hit Hl Hx).
    - exact (visible_below self root p _ _ Hvis Hit Hl Hx). }
  destruct Hv as [->|[Hd Hv]]; [exact Hitem|].
  rewrite List.Forall_forall in IH.
  exact (IH c Hin (here ++ [fst c]) _ _ (child here c) eq_refl eq_refl
           (or_intror Hitem) v Hv).
Qed.

(** Whatever the configuration, every line after the header stands for a
    visible entry, one level deeper than the depth it was met at: nothing
    excluded, nothing below an excluded or unreadable directory, is ever
    shown. *)
Theorem visits_are_visible (lower : string -> string) (self : TreeGenerator)
    (root : Path) (v : visit) :
  In v (walk lower self root "" 0 root) ->
  visible self root (v_item v) /\
  _should_exclude self (v_item v) (Some root) = false /\
  level root (v_item v) = v_depth v + 1.
Proof.
  intros Hv. unfold walk in Hv.
  destruct (target root) as [n|] eqn:Ht; [|contradiction]. split.
  - apply (walk_node_visible lower self root n (parts root) "" 0 root); auto.
  - apply walk_node_shape in Hv. destruct Hv as (rest & Hne & Hp & Hk & _ & Hx).
    split; [exact Hx|]. rewrite (level_app root _ rest Hp). lia.
Qed.


Lemma level_child root p c :
  level root (child (parts p) c) = level root p + 1.
Proof. unfold level, child. simpl. rewrite length_app. simpl. lia. Qed.

(** A visible entry is visited as soon as the depth guard lets through
    every depth above its own level. *)
Lemma visible_visited_open lower self root item :
  visible self root item ->
  (forall k, k < level root item -> depth_reached self k = false) ->
  exists v, In v (walk lower self root "" 0 root) /\ v_item v = item.
Proof.
  intros Hvis. induction Hvis
    as [listing item Hl Hin Hx | parent listing item Hpar IH Hl Hin Hx]; intros Hopen.
  - unfold walk. unfold iterdir in Hl.
    destruct (target root) as [[|[] cs]|]; try discriminate.
    injection Hl as <-. apply in_map_iff in Hin. destruct Hin as (c & <- & Hin).
    rewrite level_child in Hopen. unfold level in Hopen.
    apply walk_node_child; try assumption. apply Hopen. lia.
  - unfold iterdir in Hl.
    destruct (target parent) as [[|[] cs]|] eqn:Ht; try discriminate.
    injection Hl as <-. apply in_map_iff in Hin. destruct Hin as (c & <- & Hin).
    rewrite level_child in Hopen.
    destruct IH as (v & Hv & Ev); [intros k Hk; apply Hopen; lia|]. subst parent.
    unfold walk in *. destruct (target root) as [n|]; [|contradiction].
    pose proof (walk_node_shape lower self root n _ _ _ v Hv)
      as (rest & Hne & Hp & Hk & _).
    rewrite (level_app root _ rest Hp) in Hopen.
    destruct (walk_node_sub lower self root n _ _ _ v _ Hv Ht) as [prefix' Hsub].
    destruct (walk_node_child lower self root cs (parts (v_item v)) prefix'
                (v_depth v + 1) c) as (w & Hw & Ew); try assumption.
    { apply Hopen. lia. }
    exists w. split; [apply Hsub, Hw|exact Ew].
Qed.


Lemma kept_ext lower self1 self2 root here cs :
  (forall item, _should_exclude self1 item (Some root) =
                _should_exclude self2 item (Some root)) ->
  kept lower self1 root here cs = kept lower self2 root here cs.
Proof.
  intros Hx. unfold kept. apply List.filter_ext. intros c. now rewrite Hx.
Qed.

Lemma walk_node_mono lower self1 self2 root :
  (forall item, _should_exclude self1 item (Some root) =
                _should_exclude self2 item (Some root)) ->
  (forall k, depth_reached self1 k = false -> depth_reached self2 k = false) ->
  forall n here prefix depth v,
    In v (walk_node lower self1 root n here prefix depth) ->
    In v (walk_node lower self2 root n here prefix depth).
Proof.
  intros Hx Hg.
  induction n as [|r cs IH] using node_children_ind; intros here prefix depth v Hv.
  { now rewrite walk_node_file in Hv. }
  apply walk_node_cases in Hv.
  destruct Hv as (cs' & i & c & E & G & Hin & Hv). injection E as -> <-.
  rewrite (kept_ext lower self1 self2 root here cs Hx) in Hin, Hv.
  destruct (walk_node_intro lower self2 root cs here prefix depth i c (Hg _ G) Hin)
    as [Hhead Hsub].
  destruct Hv as [->|[Hd Hv]]; [exact Hhead|].
  apply (Hsub Hd). apply in_enumerate, in_kept in Hin. destruct Hin as [Hin _].
  rewrite List.Forall_forall in IH. now apply (IH c Hin).
Qed.

(** Raising the maximum depth, or removing it, only adds lines: every
    visit made under a limit is made, with the same line, under any
    larger limit and without a limit. *)
Theorem deeper_limit_only_adds (lower : string -> string) (self : TreeGenerator)
    (root : Path) (d1 d2 : Z) (v : visit) :
  d1 <> 0 -> d1 <= d2 ->
  In v (walk lower (with_max_depth self (Some d1)) root "" 0 root) ->
  In v (walk lower (with_max_depth self (Some d2)) root "" 0 root) /\
  In v (walk lower (with_max_depth self None) root "" 0 root).
Proof.
  intros Hnz Hle Hv. unfold walk in *.
  destruct (target root) as [n|]; [|contradiction].
  split.
  - apply (walk_node_mono lower (with_max_depth self (Some d1))); try assumption.
    + intros item. reflexivity.
    + intros k. unfold depth_reached, truthy_int. simpl.
      destruct (Z.eqb_spec d1 0); [contradiction|].
      destruct (Z.eqb_spec d2 0); simpl; [reflexivity|].
      rewrite !Z.leb_gt. lia.
  - apply (walk_node_mono lower (with_max_depth self (Some d1))); try assumption.
    + intros item. reflexivity.
    + intros k _. reflexivity.
Qed.

Lemma StronglySorted_NoDup {A} (l : list A) :
  StronglySorted (fun x y => x <> y) l -> List.NoDup l.
Proof.
  induction 1 as [|a l Hl IH Ha]; constructor; [|exact IH].
  intros Hin. rewrite List.Forall_forall in Ha. now apply (Ha a Hin).
Qed.

(** No entry is shown twice: the visits are of pairwise different paths,
    when names are unique within each directory. *)
Theorem no_entry_twice (lower : string -> string) (self : TreeGenerator)
    (root : Path) :
  wf_path root = true ->
  List.NoDup (map (fun v => parts (v_item v)) (walk lower self root "" 0 root)).
Proof.
  intros Hwf. apply StronglySorted_NoDup.
  apply (StronglySorted_fmap (fun v => parts (v_item v))
           (fun v w => parts (v_item v) <> parts (v_item w))); [auto|].
  unfold walk, wf_path in *. destruct (target root) as [n|]; [|constructor].
  apply walk_node_ordered; [| |exact Hwf].
  - intros here c v w Hv (rest & Hne & Hp) E. rewrite Hv, Hp in E. simpl in E.
    apply (f_equal (@length string)) in E. rewrite !length_app in E.
    destruct rest; [congruence|]. simpl in E. lia.
  - intros here c c' v w Hle Hne Hv Hw E. apply Hne.
    assert (Hpre : forall c v, in_block here c v ->
              exists rest, parts (v_item v) = (here ++ [fst c]) ++ rest).
    { intros c0 v0 [->|(rest & _ & Hp)]; [exists []|exists rest; exact Hp].
      simpl. now rewrite app_nil_r. }
    destruct (Hpre c v Hv) as [r1 H1]. destruct (Hpre c' w Hw) as [r2 H2].
    rewrite H1, H2 in E. exact (below_same_name _ _ _ _ _ E).
Qed.

(** ** What the exclusion rules guarantee about the output *)

Lemma existsb_false {A} (f : A -> bool) l :
  existsb f l = false -> forall x, In x l -> f x = false.
Proof.
  intros H x Hin. destruct (f x) eqn:E; [|reflexivity].
  assert (existsb f l = true); [|congruence].
  apply existsb_exists. now exists x.
Qed.

Lemma should_exclude_false self p root :
  _should_exclude self p (Some root) = false ->
  _should_exclude_by_path self p root = false /\
  (is_dir p = true -> name p ∉ exclude_dirs self) /\
  (is_dir p = false ->
   (name p ∉ exclude_files self) /\
   (forall pattern, In pattern (exclude_patterns self) ->
      Str.endswith (name p) pattern = false) /\
   (truthy_list (include_extensions self) = true ->
    In (suffix p) (default [] (include_extensions self)))).
Proof.
  unfold _should_exclude. intros H.
  destruct (_should_exclude_by_path self p root); [discriminate|].
  split; [reflexivity|].
  destruct (is_dir p).
  - split; [|discriminate]. intros _. now apply bool_decide_eq_false in H.
  - destruct (bool_decide (name p ∈ exclude_files self)) eqn:Ef; [discriminate|].
    destruct (existsb _ (exclude_patterns self)) eqn:Ep; [discriminate|].
    split; [discriminate|]. intros _.
    split; [now apply bool_decide_eq_false in Ef|].
    split; [exact (existsb_false _ _ Ep)|].
    intros Ht. rewrite Ht in H. apply negb_false_iff, existsb_exists in H.
    destruct H as (x & Hx & Ex). apply String.eqb_eq in Ex. now rewrite Ex.
Qed.

(** Every entry shown passes every rule: its normalized relative path
    holds none of the excluded path substrings; a shown directory bears no
    excluded directory name; a shown file bears no excluded file name,
    ends with no excluded suffix and, when there is a non-empty allow-list,
    has its extension in it. *)
Theorem shown_entries_pass_every_rule (lower : string -> string)
    (self : TreeGenerator) (root : Path) (v : visit) :
  In v (walk lower self root "" 0 root) ->
  (exists rel,
     relative_to (v_item v) root = Some rel /\
     forall pattern, In pattern (exclude_path_patterns self) ->
       Str.contains pattern (Str.replace "\" "/" (str_of_parts rel)) = false) /\
  (is_dir (v_item v) = true -> name (v_item v) ∉ exclude_dirs self) /\
  (is_dir (v_item v) = false ->
   (name (v_item v) ∉ exclude_files self) /\
   (forall pattern, In pattern (exclude_patterns self) ->
      Str.endswith (name (v_item v)) pattern = false) /\
   (truthy_list (include_extensions self) = true ->
    In (suffix (v_item v)) (default [] (include_extensions self)))).
Proof.
  intros Hv. unfold walk in Hv. destruct (target root) as [n|]; [|contradiction].
  apply walk_node_shape in Hv. destruct Hv as (rest & Hne & Hp & _ & _ & Hx).
  apply should_exclude_false in Hx. destruct Hx as (Hpath & Hrules).
  split; [|exact Hrules].
  exists rest. unfold _should_exclude_by_path, relative_to in *.
  rewrite Hp, strip_prefix_app in *. split; [reflexivity|].
  exact (existsb_false _ _ Hpath).
Qed.

Lemma visible_dir_same_rules self1 self2 root item :
  exclude_dirs self1 = exclude_dirs self2 ->
  exclude_path_patterns self1 = exclude_path_patterns self2 ->
  visible self1 root item -> is_dir item = true -> visible self2 root item.
Proof.
  intros Hd Hp Hvis.
  assert (Hx : forall p, is_dir p = true ->
            _should_exclude self1 p (Some root) = false ->
            _should_exclude self2 p (Some root) = false).
  { intros p Hdir. unfold _should_exclude, _should_exclude_by_path.
    now rewrite Hdir, Hd, Hp. }
  induction Hvis as [listing item Hl Hin He | parent listing item Hpar IH Hl Hin He];
    intros Hdir.
  - eapply visible_top; eauto.
  - eapply visible_below; eauto. apply IH.
    unfold iterdir, is_dir in *. destruct (target parent) as [[|[] ?]|]; congruence.
Qed.

(** The file rules never hide a directory: two generators with the same
    excluded directory names, excluded path substrings and maximum depth
    show the same directories, whatever their excluded file names,
    suffixes and allow-lists are. *)
Theorem directories_survive_file_rules (lower : string -> string)
    (self1 self2 : TreeGenerator) (root : Path) (v : visit) :
  exclude_dirs self1 = exclude_dirs self2 ->
  exclude_path_patterns self1 = exclude_path_patterns self2 ->
  max_depth self1 = max_depth self2 ->
  In v (walk lower self1 root "" 0 root) ->
  is_dir (v_item v) = true ->
  exists w, In w (walk lower self2 root "" 0 root) /\ v_item w = v_item v.
Proof.
  intros Hd Hp Hm Hv Hdir.
  assert (Hvis : visible self1 root (v_item v)).
  { unfold walk in Hv. destruct (target root) as [n|] eqn:Ht; [|contradiction].
    apply (walk_node_visible lower self1 root n (parts root) "" 0 root); auto. }
  apply visible_visited_open.
  - now apply (visible_dir_same_rules self1 self2).
  - unfold walk in Hv. destruct (target root) as [n|]; [|contradiction].
    apply walk_node_shape in Hv. destruct Hv as (rest & Hne & Hparts & Hk & Hg & _).
    rewrite (level_app root _ rest Hparts). intros k Hlt.
    unfold depth_reached in *. rewrite <- Hm.
    destruct (truthy_int (max_depth self1)); [|reflexivity]. simpl in *.
    destruct (max_depth self1) as [d|]; [|reflexivity].
    apply Z.leb_gt. apply Z.leb_gt in Hg. lia.
Qed.

(** ** The shape of a line *)

Lemma string_app_assoc (a b c : string) : (a +:+ b) +:+ c = a +:+ (b +:+ c).
Proof.
  induction a as [|x a IH]; [reflexivity|].
  change (String x ((a +:+ b) +:+ c) = String x (a +:+ (b +:+ c))).
  now rewrite IH.
Qed.






(** ** The generator built from the command line *)

Lemma main_generator_exclude_dirs args x :
  x ∈ exclude_dirs (main_generator args) <->
  In x DEFAULT_CONFIG.exclude_dirs \/ In x (default [] (arg_exclude_dirs args)).
Proof.
  unfold main_generator, __init__, main_config.
  cbn [exclude_dirs cfg_exclude_dirs].
  destruct (arg_exclude_dirs args) as [[|d ds]|];
    cbn [truthy_list]; unfold default, from_option, id;
    rewrite elem_of_list_to_set, list_elem_of_In, ?in_app_iff;
    cbn [In]; tauto.
Qed.

Lemma main_generator_exclude_files args x :
  x ∈ exclude_files (main_generator args) <->
  In x DEFAULT_CONFIG.exclude_files \/ In x (default [] (arg_exclude_files args)).
Proof.
  unfold main_generator, __init__, main_config.
  cbn [exclude_files cfg_exclude_files].
  destruct (arg_exclude_files args) as [[|d ds]|];
    cbn [truthy_list]; unfold default, from_option, id;
    rewrite elem_of_list_to_set, list_elem_of_In, ?in_app_iff;
    cbn [In]; tauto.
Qed.

Lemma main_generator_exclude_patterns args :
  exclude_patterns (main_generator args) =
  if arg_include_images args then DEFAULT_CONFIG.exclude_patterns
  else DEFAULT_CONFIG.exclude_patterns ++ image_extensions.
Proof.
  unfold main_generator, __init__, main_config.
  now destruct (arg_include_images args).
Qed.

Lemma main_generator_include_extensions args :
  include_extensions (main_generator args) =
  if arg_minimal args then Some [".ts"; ".tsx"; ".js"; ".jsx"; ".json"; ".md"]
  else if truthy_list (arg_ext args) then arg_ext args else None.
Proof.
  unfold main_generator, __init__, main_config.
  destruct (arg_minimal args); [reflexivity|].
  now destruct (truthy_list (arg_ext args)).
Qed.

Lemma walk_visit_rules lower self root v :
  In v (walk lower self root "" 0 root) ->
  _should_exclude self (v_item v) (Some root) = false.
Proof.
  intros Hv. unfold walk in Hv. destruct (target root) as [n|]; [|contradiction].
  apply walk_node_shape in Hv. now destruct Hv as (rest & _ & _ & _ & _ & Hx).
Qed.

(** The names given with [--exclude-dirs] and [--exclude-files] are added
    to the default ones, never put in their place: the excluded names of
    the generator are the default ones and the given ones, and whatever
    the arguments no line of the output is that of a directory with a
    default or a given excluded directory name, or of a file with a
    default or a given excluded file name. *)
Theorem cli_exclusions_add_to_defaults (lower : string -> string)
    (args : Args) (fs : FileSystem) :
  let root := resolve fs (arg_directory args) in
  let visits := walk lower (main_generator args) root "" 0 root in
  (forall x,
     (x ∈ exclude_dirs (main_generator args) <->
      In x DEFAULT_CONFIG.exclude_dirs \/ In x (default [] (arg_exclude_dirs args))) /\
     (x ∈ exclude_files (main_generator args) <->
      In x DEFAULT_CONFIG.exclude_files \/ In x (default [] (arg_exclude_files args)))) /\
  (is_dir root = true ->
   generate_lines lower (main_generator args) fs (arg_directory args) =
     Ok ((name root +:+ "/") :: map v_line visits)) /\
  (forall v, In v visits ->
     (is_dir (v_item v) = true ->
      ~ In (name (v_item v)) DEFAULT_CONFIG.exclude_dirs /\
      ~ In (name (v_item v)) (default [] (arg_exclude_dirs args))) /\
     (is_dir (v_item v) = false ->
      ~ In (name (v_item v)) DEFAULT_CONFIG.exclude_files /\
      ~ In (name (v_item v)) (default [] (arg_exclude_files args)))).
Proof.
  intros root visits. split; [|split].
  - intros x. split;
      [apply main_generator_exclude_dirs|apply main_generator_exclude_files].
  - apply generate_lines_walk.
  - intros v Hv. apply walk_visit_rules, should_exclude_false in Hv.
    destruct Hv as (_ & Hdir & Hfile). split.
    + intros Hd. specialize (Hdir Hd).
      rewrite main_generator_exclude_dirs in Hdir. tauto.
    + intros Hd. destruct (Hfile Hd) as (Hf & _).
      rewrite main_generator_exclude_files in Hf. tauto.
Qed.

(** Unless [--include-images] is given, no shown file ends with one of
    the image suffixes; with or without it, none ends with a default
    excluded suffix. *)
Theorem cli_hides_images_by_default (lower : string -> string)
    (args : Args) (root : Path) (v : visit) :
  In v (walk lower (main_generator args) root "" 0 root) ->
  is_dir (v_item v) = false ->
  (forall pattern, In pattern DEFAULT_CONFIG.exclude_patterns ->
     Str.endswith (name (v_item v)) pattern = false) /\
  (arg_include_images args = false ->
   forall pattern, In pattern image_extensions ->
     Str.endswith (name (v_item v)) pattern = false).
Proof.
  intros Hv Hd. apply walk_visit_rules, should_exclude_false in Hv.
  destruct Hv as (_ & _ & Hfile). destruct (Hfile Hd) as (_ & Hpat & _).
  rewrite main_generator_exclude_patterns in Hpat.
  destruct (arg_include_images args).
  - split; [exact Hpat|discriminate].
  - split; [|intros _]; intros pattern Hin; apply Hpat, in_app_iff; auto.
Qed.

(** [--minimal] wins over [--ext]: with it every shown file has one of
    the six extensions of the preset, whatever [--ext] lists; without it
    and with a non-empty [--ext], every shown file has a listed
    extension. *)
Theorem cli_minimal_overrides_ext (lower : string -> string)
    (args : Args) (root : Path) (v : visit) :
  In v (walk lower (main_generator args) root "" 0 root) ->
  is_dir (v_item v) = false ->
  (arg_minimal args = true ->
   In (suffix (v_item v)) [".ts"; ".tsx"; ".js"; ".jsx"; ".json"; ".md"]) /\
  (arg_minimal args = false -> truthy_list (arg_ext args) = true ->
   In (suffix (v_item v)) (default [] (arg_ext args))).
Proof.
  intros Hv Hd. apply walk_visit_rules, should_exclude_false in Hv.
  destruct Hv as (_ & _ & Hfile). destruct (Hfile Hd) as (_ & _ & Hext).
  rewrite main_generator_include_extensions in Hext.
  split.
  - intros Hm. rewrite Hm in Hext. now apply Hext.
  - intros Hm Ht. rewrite Hm, Ht in Hext. now apply Hext.
Qed.

(** ** The connectors *)

Lemma in_combine_seq {A} (l : list A) :
  forall s i x, In (i, x) (combine (seq s (length l)) l) ->
    (s <= i < s + length l)%nat.
Proof.
  induction l as [|y l IH]; intros s i x Hin; [contradiction|].
  simpl in Hin. destruct Hin as [[= <- <-]|Hin]; [simpl; lia|].
  apply IH in Hin. simpl. lia.
Qed.

Lemma combine_seq_increasing {A} (l : list A) :
  forall s, StronglySorted (fun x y : nat * A => (fst x < fst y)%nat)
              (combine (seq s (length l)) l).
Proof.
  induction l as [|y l IH]; intros s; simpl; constructor; [apply IH|].
  apply List.Forall_forall. intros [i x] Hin. apply in_combine_seq in Hin.
  simpl. lia.
Qed.

Lemma StronglySorted_both {A} (R1 R2 : A -> A -> Prop) l :
  StronglySorted R1 l -> StronglySorted R2 l ->
  StronglySorted (fun x y => R1 x y /\ R2 x y) l.
Proof.
  induction 1 as [|a l Hl IH Ha]; intros H2; [constructor|].
  apply StronglySorted_inv in H2. destruct H2 as [H2 Hb].
  constructor; [now apply IH|].
  rewrite List.Forall_forall in *. intros x Hx. split; auto.
Qed.

Lemma last_in_combine_seq {A} (l : list A) :
  l <> [] ->
  forall s, exists x, In ((s + length l - 1)%nat, x) (combine (seq s (length l)) l).
Proof.
  induction l as [|y l IH]; intros Hne s; [congruence|].
  destruct l as [|z l].
  - exists y. left. simpl. f_equal. lia.
  - destruct (IH ltac:(congruence) (S s)) as [x Hx].
    exists x. right. simpl in *.
    replace (s + S (S (length l)) - 1)%nat with (S s + S (length l) - 1)%nat by lia.
    exact Hx.
Qed.

Section Corner.
Variable lower : string -> string.
Variables (self : TreeGenerator) (root : Path).

(** An entry with a later sibling is not marked as the last one. *)
Lemma walk_node_corner n :
  wf_node n = true ->
  forall here prefix depth,
    StronglySorted
      (fun v w => parent_parts (v_item v) = parent_parts (v_item w) ->
                  v_last v = false)
      (walk_node lower self root n here prefix depth).
Proof.
  induction n as [|r cs IH] using node_children_ind; intros Hwf here prefix depth.
  { rewrite walk_node_file. constructor. }
  destruct (depth_reached self depth) eqn:G.
  { rewrite walk_node_reached by assumption. constructor. }
  destruct r; [|rewrite walk_node_denied; constructor].
  apply wf_node_Dir in Hwf. destruct Hwf as [Hnd Hwf].
  rewrite walk_node_listed by assumption. simpl.
  set (len := length (kept lower self root here cs)).
  apply StronglySorted_flat_map.
  - intros [i c] Hin. unfold walk_step. simpl.
    pose proof Hin as Hc. apply in_enumerate, in_kept in Hc. destruct Hc as [Hc _].
    destruct (is_dir (child here c)); [|repeat constructor].
    constructor.
    + rewrite List.Forall_forall in IH. apply (IH c Hc). now apply Hwf.
    + apply List.Forall_forall. intros w Hw E. exfalso. simpl in E.
      apply walk_node_shape in Hw. destruct Hw as (rest & Hne & Hp & _).
      rewrite parent_parts_child, (parent_parts_below _ _ _ _ Hne Hp) in E.
      now apply below_not_here in E.
  - pose proof (StronglySorted_both _ _ _
        (combine_seq_increasing (kept lower self root here cs) 0)
        (StronglySorted_combine _ _ (kept_ordered lower self root here cs Hnd)
           (seq 0 (length (kept lower self root here cs))))) as Hs.
    assert (Hlt : Forall (fun x : nat * (string * node) => (fst x < len)%nat)
                    (enumerate (kept lower self root here cs))).
    { apply List.Forall_forall. intros [i c] Hin.
      apply in_combine_seq in Hin. simpl. unfold len. lia. }
    fold (enumerate (kept lower self root here cs)) in Hs.
    revert Hs Hlt. generalize (enumerate (kept lower self root here cs)).
    intros l Hs Hlt. induction Hs as [|x l Hl IHl Hx]; constructor.
    + apply IHl. now apply List.Forall_inv_tail in Hlt.
    + apply List.Forall_inv_tail in Hlt.
      rewrite List.Forall_forall in Hx, Hlt |- *.
      intros [j c'] Hy. destruct x as [i c].
      destruct (Hx _ Hy) as [Hij [_ Hne]]. specialize (Hlt _ Hy). simpl in *.
      intros a b Ha Hb E.
      assert (Hb' : parent_parts (v_item b) = here \/
                    exists r2, parent_parts (v_item b) = (here ++ [fst c']) ++ r2).
      { unfold walk_step in Hb. simpl in Hb. destruct Hb as [<-|Hb].
        - left. apply parent_parts_child.
        - right. destruct (is_dir (child here c')); [|contradiction].
          apply walk_node_shape in Hb. destruct Hb as (rest & Hn & Hp & _).
          exists (removelast rest). exact (parent_parts_below _ _ _ _ Hn Hp). }
      unfold walk_step in Ha. simpl in Ha. destruct Ha as [<-|Ha].
      * simpl. apply Nat.eqb_neq. lia.
      * exfalso. destruct (is_dir (child here c)); [|contradiction].
        apply walk_node_shape in Ha. destruct Ha as (rest & Hn & Hp & _).
        rewrite (parent_parts_below _ _ _ _ Hn Hp) in E.
        destruct Hb' as [Hb'|[r2 Hb']]; rewrite Hb' in E.
        -- symmetry in E. now apply below_not_here in E.
        -- apply Hne. exact (below_same_name _ _ _ _ _ E).
Qed.

(** Every sibling group has an entry marked as the last one. *)
Lemma walk_node_has_corner n :
  forall here prefix depth v,
    In v (walk_node lower self root n here prefix depth) ->
    exists w,
      In w (walk_node lower self root n here prefix depth) /\
      parent_parts (v_item w) = parent_parts (v_item v) /\
      v_last w = true.
Proof.
  induction n as [|r cs IH] using node_children_ind; intros here prefix depth v Hv.
  { now rewrite walk_node_file in Hv. }
  apply walk_node_cases in Hv.
  destruct Hv as (cs' & i & c & E & G & Hin & Hv). injection E as -> <-.
  destruct Hv as [->|[Hd Hv]].
  - assert (Hne : kept lower self root here cs <> []).
    { intros E. rewrite E in Hin. contradiction. }
    destruct (last_in_combine_seq _ Hne 0) as [c' Hc'].
    destruct (walk_node_intro lower self root cs here prefix depth _ c' G Hc')
      as [Hhead _].
    eexists. split; [exact Hhead|]. simpl. rewrite !parent_parts_child.
    split; [reflexivity|]. apply Nat.eqb_refl.
  - destruct (walk_node_intro lower self root cs here prefix depth i c G Hin)
      as [_ Hsub].
    apply in_enumerate, in_kept in Hin. destruct Hin as [Hin _].
    rewrite List.Forall_forall in IH.
    destruct (IH c Hin _ _ _ v Hv) as (w & Hw & Hp & Hl).
    exists w. split; [now apply Hsub|]. now split.
Qed.

End Corner.

(** The corner connector marks the last entry of a sibling group and no
    other: an entry followed by a sibling has the branch connector, and
    every group holds an entry with the corner connector. *)
Theorem corner_marks_last_sibling (lower : string -> string)
    (self : TreeGenerator) (root : Path) :
  wf_path root = true ->
  let visits := walk lower self root "" 0 root in
  (forall i j v w,
     visits !! i = Some v -> visits !! j = Some w -> (i < j)%nat ->
     parent_parts (v_item v) = parent_parts (v_item w) ->
     v_line v = v_prefix v +:+ "├── " +:+ display_name (v_item v)) /\
  (forall v, In v visits ->
     exists w,
       In w visits /\
       parent_parts (v_item w) = parent_parts (v_item v) /\
       v_line w = v_prefix w +:+ "└── " +:+ display_name (v_item w)).
Proof.
  intros Hwf visits. unfold visits, walk, wf_path in *.
  destruct (target root) as [n|]; [|split; [intros [|?] ? ? ? H|intros ? []]; discriminate H].
  split.
  - intros i j v w Hi Hj Hlt E. unfold v_line.
    rewrite (StronglySorted_lookup _ _ (walk_node_corner lower self root n Hwf _ _ _)
               i j v w Hi Hj Hlt E).
    reflexivity.
  - intros v Hv.
    destruct (walk_node_has_corner lower self root n _ _ _ v Hv) as (w & Hw & Hp & Hl).
    exists w. split; [exact Hw|]. split; [exact Hp|].
    unfold v_line. now rewrite Hl.
Qed.

(** ** Path substrings *)

Lemma prefix_app p s t :
  String.prefix p s = true -> String.prefix p (s +:+ t) = true.
Proof.
  revert s. induction p as [|a p IH]; intros s H.
  - now destruct (s +:+ t).
  - destruct s as [|b s]; [discriminate|].
    change (String b s +:+ t) with (String b (s +:+ t)). simpl in *.
    destruct (ascii_dec a b); [now apply IH|discriminate].
Qed.

Lemma contains_of_prefix pat s :
  String.prefix pat s = true -> Str.contains pat s = true.
Proof. intros H. destruct s; cbn [Str.contains]; now rewrite H. Qed.

Lemma contains_app pat s t :
  Str.contains pat s = true -> Str.contains pat (s +:+ t) = true.
Proof.
  induction s as [|b s IH]; intros H.
  - cbn [Str.contains] in H. rewrite orb_false_r in H.
    apply contains_of_prefix. exact (prefix_app pat "" t H).
  - change (String b s +:+ t) with (String b (s +:+ t)).
    cbn [Str.contains] in H |- *. apply orb_true_iff in H. apply orb_true_iff.
    destruct H as [H|H]; [left|right; now apply IH].
    exact (prefix_app pat (String b s) t H).
Qed.

Lemma contains_empty s : Str.contains "" s = true.
Proof. now destruct s. Qed.

Lemma replace_app a b s t :
  Str.replace a b (s +:+ t) = Str.replace a b s +:+ Str.replace a b t.
Proof.
  induction s as [|c s IH]; [reflexivity|].
  change (String c s +:+ t) with (String c (s +:+ t)). simpl. now rewrite IH.
Qed.

Lemma join_app sep (l1 l2 : list string) :
  l1 <> [] -> l2 <> [] ->
  Str.join sep (l1 ++ l2) = Str.join sep l1 +:+ sep +:+ Str.join sep l2.
Proof.
  unfold Str.join. induction l1 as [|x l1 IH]; intros H1 H2; [congruence|].
  destruct l1 as [|y l1].
  - simpl. destruct l2; [congruence|reflexivity].
  - change (String.concat sep ((x :: y :: l1) ++ l2))
      with (x +:+ sep +:+ String.concat sep ((y :: l1) ++ l2)).
    rewrite IH by congruence.
    change (String.concat sep (x :: y :: l1))
      with (x +:+ sep +:+ String.concat sep (y :: l1)).
    now rewrite !string_app_assoc.
Qed.

Lemma strip_prefix_more pre l rel more :
  strip_prefix pre l = Some rel -> strip_prefix pre (l ++ more) = Some (rel ++ more).
Proof.
  revert l. induction pre as [|a pre IH]; intros l H; simpl in *.
  - now injection H as <-.
  - destruct l as [|b l]; [discriminate|]. simpl.
    destruct (a =? b)%string; [now apply IH|discriminate].
Qed.

(** An excluded path substring found in the relative path of an entry is
    found in the relative path of everything beneath it: pruning a
    directory on a path match hides only entries the same match would
    hide. *)
Theorem path_exclusion_reaches_descendants (self : TreeGenerator)
    (p q root : Path) (rel more : list string) :
  relative_to p root = Some rel -> rel <> [] ->
  parts q = parts p ++ more ->
  _should_exclude_by_path self p root = true ->
  _should_exclude_by_path self q root = true /\
  _should_exclude self q (Some root) = true.
Proof.
  intros Hrel Hne Hq Hp.
  assert (E : _should_exclude_by_path self q root = true).
  { unfold _should_exclude_by_path, relative_to in *.
    rewrite Hq, (strip_prefix_more _ _ rel more Hrel). rewrite Hrel in Hp.
    apply existsb_exists in Hp. destruct Hp as (pat & Hin & Hc).
    apply existsb_exists. exists pat. split; [exact Hin|].
    destruct more as [|m more]; [now rewrite app_nil_r|].
    assert (Hs : forall l, l <> [] -> str_of_parts l = Str.join "/" l).
    { intros [|x l] Hl; [congruence|reflexivity]. }
    rewrite Hs in Hc by assumption.
    rewrite Hs by (destruct rel; [congruence|discriminate]).
    rewrite join_app, replace_app by congruence.
    now apply contains_app. }
  split; [exact E|]. unfold _should_exclude. now rewrite E.
Qed.

Lemma endswith_empty s : Str.endswith s "" = true.
Proof.
  unfold Str.endswith. simpl. rewrite Nat.sub_0_r.
  assert (H : forall n t, String.substring n 0 t = "").
  { induction n as [|n IH]; intros [|c t]; simpl; auto. }
  now rewrite H.
Qed.

(** An empty string among the patterns matches everything: among the
    excluded path substrings it leaves the header alone, among the
    excluded suffixes it leaves no file. *)
Theorem empty_pattern_excludes_everything (lower : string -> string)
    (self : TreeGenerator) (fs : FileSystem) (directory : string) :
  is_dir (resolve fs directory) = true ->
  (In "" (exclude_path_patterns self) ->
   generate_tree lower self fs directory = Ok (name (resolve fs directory) +:+ "/")) /\
  (In "" (exclude_patterns self) ->
   forall v,
     In v (walk lower self (resolve fs directory) "" 0 (resolve fs directory)) ->
     is_dir (v_item v) = true).
Proof.
  intros Hd. split.
  - intros Hin. unfold generate_tree.
    destruct (iterdir (resolve fs directory)) as [listing|e] eqn:Hl.
    + rewrite (generate_lines_all_excluded lower self fs directory listing Hl);
        [reflexivity|].
      intros item Hitem. unfold iterdir in Hl.
      destruct (target (resolve fs directory)) as [[|[] cs]|]; try discriminate.
      injection Hl as <-. apply in_map_iff in Hitem. destruct Hitem as (c & <- & _).
      unfold _should_exclude, _should_exclude_by_path, relative_to, child. simpl.
      rewrite strip_prefix_app.
      assert (existsb (fun pattern =>
                Str.contains pattern (Str.replace "\" "/" (str_of_parts [fst c])))
                (exclude_path_patterns self) = true) as ->; [|reflexivity].
      apply existsb_exists. exists "". split; [exact Hin|apply contains_empty].
    + unfold generate_lines, exists_, _build_tree. unfold iterdir, is_dir in *.
      destruct (target (resolve fs directory)) as [[|[] cs]|]; try discriminate.
      simpl. now destruct (depth_reached self 0).
  - intros Hin v Hv. destruct (is_dir (v_item v)) eqn:E; [reflexivity|].
    apply walk_visit_rules, should_exclude_false in Hv.
    destruct Hv as (_ & _ & Hfile). destruct (Hfile E) as (_ & Hpat & _).
    specialize (Hpat "" Hin). rewrite endswith_empty in Hpat. discriminate.
Qed.

(** ** The further properties at the sample project *)

Lemma sample_readme_visited :
  In Sample.readme_visit
     (walk Str.lower_ascii Sample.default_generator Sample.root "" 0 Sample.root).
Proof. vm_compute. do 7 right. left. reflexivity. Qed.

Lemma sample_src_visited :
  In Sample.src_visit
     (walk Str.lower_ascii Sample.default_generator Sample.root "" 0 Sample.root).
Proof. vm_compute. do 4 right. left. reflexivity. Qed.

Lemma sample_src_visible self :
  _should_exclude self (v_item Sample.src_visit) (Some Sample.root) = false ->
  visible self Sample.root (v_item Sample.src_visit).
Proof.
  intros Hx.
  apply (visible_top self Sample.root
           (map (child (parts Sample.root))
                [ ("src", Dir true [("index.ts", File); ("App.tsx", File)]);
                  ("node_modules", Dir true [("pkg", Dir true [("index.js", File)])]);
                  ("README.md", File);
                  (".env", File);
                  ("secret", Dir false [("key.pem", File)]);
                  ("lib", Dir true
                     [("a", Dir true
                        [("node_modules", Dir true [("deep.js", File)]);
                         ("b.ts", File)])]) ])).
  - reflexivity.
  - left. reflexivity.
  - exact Hx.
Qed.

Lemma build_tree_appends_witness :
  _build_tree Str.lower_ascii Sample.default_generator Sample.root "" ["proj/"] 0
    Sample.root =
  Ok ["proj/"; "├── lib/"; "│   └── a/"; "│       └── b.ts";
      "├── secret/"; "├── src/"; "│   ├── App.tsx"; "│   └── index.ts";
      "└── README.md"] /\
  forall lines',
    _build_tree Str.lower_ascii Sample.default_generator Sample.root "" lines' 0
      Sample.root =
    Ok (lines' ++ map v_line
          (walk Str.lower_ascii Sample.default_generator Sample.root "" 0 Sample.root)).
Proof.
  assert (H : _build_tree Str.lower_ascii Sample.default_generator Sample.root ""
                ["proj/"] 0 Sample.root =
              Ok ["proj/"; "├── lib/"; "│   └── a/"; "│       └── b.ts";
                  "├── secret/"; "├── src/"; "│   ├── App.tsx"; "│   └── index.ts";
                  "└── README.md"]).
  { vm_compute. reflexivity. }
  split; [exact H|].
  apply (build_tree_appends Str.lower_ascii Sample.default_generator Sample.root ""
           ["proj/"] 0 Sample.root _ H).
Defined.

Lemma header_comes_first_witness :
  generate_tree Str.lower_ascii Sample.default_generator Sample.fs "locked" =
    Ok "locked/" /\
  String.prefix (name (resolve Sample.fs "locked") +:+ "/") "locked/" = true.
Proof.
  assert (H : generate_tree Str.lower_ascii Sample.default_generator Sample.fs "locked"
              = Ok "locked/").
  { vm_compute. reflexivity. }
  split; [exact H|].
  apply (header_comes_first Str.lower_ascii Sample.default_generator Sample.fs
           "locked" "locked/" H).
Defined.

Lemma file_root_is_not_a_directory_witness :
  target (resolve Sample.fs_file "notes.txt") = Some File /\
  generate_tree Str.lower_ascii Sample.default_generator Sample.fs_file "notes.txt" =
    Raise NotADirectoryError /\
  generate_tree Str.lower_ascii
    (with_max_depth Sample.default_generator (Some (-1))) Sample.fs_file "notes.txt" =
    Ok (name (resolve Sample.fs_file "notes.txt") +:+ "/").
Proof.
  split; [reflexivity|]. split.
  - apply (file_root_is_not_a_directory Str.lower_ascii Sample.default_generator
             Sample.fs_file "notes.txt" eq_refl). reflexivity.
  - apply (proj2 (file_root_is_not_a_directory Str.lower_ascii
                    (with_max_depth Sample.default_generator (Some (-1)))
                    Sample.fs_file "notes.txt" eq_refl) (-1) eq_refl). lia.
Defined.

Lemma all_excluded_gives_header_witness :
  generate_lines Str.lower_ascii Sample.default_generator Sample.fs_hidden "hidden" =
    Ok [name (resolve Sample.fs_hidden "hidden") +:+ "/"] /\
  generate_tree Str.lower_ascii Sample.default_generator Sample.fs_hidden "hidden" =
    Ok (name (resolve Sample.fs_hidden "hidden") +:+ "/").
Proof.
  apply (all_excluded_gives_header Str.lower_ascii Sample.default_generator
           Sample.fs_hidden "hidden"
           (map (child ["home"; "hidden"])
                [ ("node_modules", Dir true [("pkg", File)]);
                  (".env", File);
                  ("debug.log", File) ])).
  - reflexivity.
  - intros item [<-|[<-|[<-|[]]]]; vm_compute; reflexivity.
Defined.

Lemma visits_are_visible_witness :
  visible Sample.default_generator Sample.root (v_item Sample.readme_visit) /\
  _should_exclude Sample.default_generator (v_item Sample.readme_visit)
    (Some Sample.root) = false /\
  level Sample.root (v_item Sample.readme_visit) = v_depth Sample.readme_visit + 1.
Proof.
  apply (visits_are_visible Str.lower_ascii Sample.default_generator Sample.root
           Sample.readme_visit sample_readme_visited).
Defined.



Lemma deeper_limit_only_adds_witness :
  In Sample.readme_visit
     (walk Str.lower_ascii (with_max_depth Sample.default_generator (Some 2))
        Sample.root "" 0 Sample.root) /\
  In Sample.readme_visit
     (walk Str.lower_ascii (with_max_depth Sample.default_generator None)
        Sample.root "" 0 Sample.root).
Proof.
  apply (deeper_limit_only_adds Str.lower_ascii Sample.default_generator Sample.root
           1 2 Sample.readme_visit).
  - discriminate.
  - lia.
  - vm_compute. do 3 right. left. reflexivity.
Defined.

Lemma no_entry_twice_witness :
  List.NoDup
    (map (fun v => parts (v_item v))
       (walk Str.lower_ascii Sample.default_generator Sample.root "" 0 Sample.root)).
Proof.
  apply (no_entry_twice Str.lower_ascii Sample.default_generator Sample.root).
  reflexivity.
Defined.

Lemma shown_entries_pass_every_rule_witness :
  is_dir (v_item Sample.readme_visit) = false /\
  name (v_item Sample.readme_visit) ∉ exclude_files Sample.default_generator.
Proof.
  split; [reflexivity|].
  apply (shown_entries_pass_every_rule Str.lower_ascii Sample.default_generator
           Sample.root Sample.readme_visit sample_readme_visited).
  reflexivity.
Defined.

Lemma directories_survive_file_rules_witness :
  exists w,
    In w (walk Str.lower_ascii Sample.ts_generator Sample.root "" 0 Sample.root) /\
    v_item w = v_item Sample.src_visit.
Proof.
  apply (directories_survive_file_rules Str.lower_ascii Sample.default_generator
           Sample.ts_generator Sample.root Sample.src_visit).
  - reflexivity.
  - reflexivity.
  - reflexivity.
  - exact sample_src_visited.
  - reflexivity.
Defined.


Example sample_b_line :
  v_line Sample.b_visit = "│       └── b.ts" /\
  level Sample.root (v_item Sample.b_visit) = 3 /\
  Str.len "│       └── " = 12%nat.
Proof. repeat split; vm_compute; reflexivity. Qed.

Lemma sample_readme_visited_cli args :
  args = Sample.plain_args \/ args = Sample.minimal_args ->
  In Sample.readme_visit
     (walk Str.lower_ascii (main_generator args) Sample.root "" 0 Sample.root).
Proof.
  intros [-> | ->]; vm_compute; repeat ((left; reflexivity) || right).
Qed.

Lemma cli_exclusions_add_to_defaults_witness :
  ("secret" ∈ exclude_dirs (main_generator Sample.extra_args)) /\
  ("node_modules" ∈ exclude_dirs (main_generator Sample.extra_args)) /\
  ("README.md" ∈ exclude_files (main_generator Sample.extra_args)) /\
  generate_lines Str.lower_ascii (main_generator Sample.extra_args) Sample.fs "proj" =
  Ok ((name Sample.root +:+ "/") ::
      map v_line
        (walk Str.lower_ascii (main_generator Sample.extra_args)
           Sample.root "" 0 Sample.root)) /\
  ~ In (name (v_item Sample.src_last_visit)) DEFAULT_CONFIG.exclude_dirs /\
  ~ In (name (v_item Sample.src_last_visit)) ["secret"].
Proof.
  destruct (cli_exclusions_add_to_defaults Str.lower_ascii Sample.extra_args Sample.fs)
    as (Hnames & Hlines & Hv).
  split; [apply (Hnames "secret"); right; left; reflexivity|].
  split; [apply (Hnames "node_modules"); left; left; reflexivity|].
  split; [apply (Hnames "README.md"); right; left; reflexivity|].
  split; [exact (Hlines eq_refl)|].
  apply (Hv Sample.src_last_visit).
  - vm_compute. do 3 right. left. reflexivity.
  - reflexivity.
Defined.

Example sample_extra_args_output :
  generate_lines Str.lower_ascii (main_generator Sample.extra_args) Sample.fs "proj" =
  Ok ["proj/"; "├── lib/"; "│   └── a/"; "│       └── b.ts";
      "└── src/"; "    ├── App.tsx"; "    └── index.ts"].
Proof. vm_compute. reflexivity. Qed.

Lemma cli_hides_images_by_default_witness :
  arg_include_images Sample.plain_args = false /\
  forall pattern, In pattern image_extensions ->
    Str.endswith (name (v_item Sample.readme_visit)) pattern = false.
Proof.
  split; [reflexivity|].
  apply (cli_hides_images_by_default Str.lower_ascii Sample.plain_args Sample.root
           Sample.readme_visit (sample_readme_visited_cli _ (or_introl eq_refl)) eq_refl).
  reflexivity.
Defined.

Lemma cli_minimal_overrides_ext_witness :
  arg_minimal Sample.minimal_args = true /\
  arg_ext Sample.minimal_args = Some [".py"] /\
  In (suffix (v_item Sample.readme_visit)) [".ts"; ".tsx"; ".js"; ".jsx"; ".json"; ".md"].
Proof.
  split; [reflexivity|]. split; [reflexivity|].
  apply (cli_minimal_overrides_ext Str.lower_ascii Sample.minimal_args Sample.root
           Sample.readme_visit (sample_readme_visited_cli _ (or_intror eq_refl)) eq_refl).
  reflexivity.
Defined.

Lemma corner_marks_last_sibling_witness :
  wf_path Sample.root = true /\
  v_line Sample.src_visit =
    v_prefix Sample.src_visit +:+ "├── " +:+ display_name (v_item Sample.src_visit).
Proof.
  split; [reflexivity|].
  apply (proj1 (corner_marks_last_sibling Str.lower_ascii Sample.default_generator
                  Sample.root eq_refl)
           4%nat 7%nat Sample.src_visit Sample.readme_visit).
  - vm_compute. reflexivity.
  - vm_compute. reflexivity.
  - lia.
  - reflexivity.
Defined.

Lemma path_exclusion_reaches_descendants_witness :
  _should_exclude_by_path Sample.default_generator Sample.build_dir Sample.root = true /\
  _should_exclude_by_path Sample.default_generator Sample.build_file Sample.root = true /\
  _should_exclude Sample.default_generator Sample.build_file (Some Sample.root) = true.
Proof.
  assert (H : _should_exclude_by_path Sample.default_generator Sample.build_dir
                Sample.root = true).
  { vm_compute. reflexivity. }
  split; [exact H|].
  apply (path_exclusion_reaches_descendants Sample.default_generator
           Sample.build_dir Sample.build_file Sample.root
           ["android"; "app"; "build"] ["outputs"; "app.txt"]).
  - reflexivity.
  - discriminate.
  - reflexivity.
  - exact H.
Defined.

Lemma empty_pattern_excludes_everything_witness :
  is_dir (resolve Sample.fs "proj") = true /\
  generate_tree Str.lower_ascii
    (__init__ (MkConfig None None None None None (Some [""]))) Sample.fs "proj" =
  Ok (name (resolve Sample.fs "proj") +:+ "/").
Proof.
  split; [reflexivity|].
  apply (empty_pattern_excludes_everything Str.lower_ascii
           (__init__ (MkConfig None None None None None (Some [""])))
           Sample.fs "proj" eq_refl).
  left. reflexivity.
Defined.

(** ** Writing and printing *)

Lemma generate_tree_io_result lower self fs open_w write_w directory :
  generate_tree_io lower self fs open_w write_w directory None =
  ([], generate_tree lower self fs directory).
Proof.
  unfold generate_tree_io, generate_tree.
  now destruct (generate_lines lower self fs directory).
Qed.

Lemma generate_tree_io_raises lower self fs open_w write_w directory output_file e :
  generate_tree lower self fs directory = Raise e ->
  generate_tree_io lower self fs open_w write_w directory output_file = ([], Raise e).
Proof.
  unfold generate_tree_io, generate_tree.
  destruct (generate_lines lower self fs directory); [discriminate|].
  now intros [= ->].
Qed.

(** A run that cannot render raises before the output file is opened:
    whatever the root is missing, a regular file or anything else that
    makes the traversal raise, [main] has printed its banner and nothing
    else, and no file is written. *)
Theorem failed_run_writes_nothing (lower : string -> string) (fs : FileSystem)
    (open_w : string -> option exn) (write_w : string -> string -> option exn)
    (args : Args) (e : exn) :
  generate_tree lower (main_generator args) fs (arg_directory args) = Raise e ->
  main lower fs open_w write_w args = (banner args, Raise e) /\
  forall path content,
    ~ In (WriteFile path content) (fst (main lower fs open_w write_w args)).
Proof.
  intros H.
  assert (E : main lower fs open_w write_w args = (banner args, Raise e)).
  { unfold main. rewrite (generate_tree_io_raises _ _ _ _ _ _ _ e H).
    now rewrite app_nil_r. }
  split; [exact E|]. rewrite E. intros path content Hin. cbn [fst] in Hin.
  unfold banner in Hin. rewrite !in_app_iff in Hin.
  destruct Hin as [[Hin|[]]|[Hin|[Hin|[]]]]; try discriminate.
  destruct (arg_minimal args); [destruct Hin as [Hin|[]]; discriminate|destruct Hin].
Qed.


Lemma failed_run_writes_nothing_witness :
  main Str.lower_ascii Sample.fs Sample.open_ok Sample.write_ok Sample.gone_args =
    (banner Sample.gone_args,
     Raise (ValueError ("Directory '" +:+ "gone" +:+ "' does not exist"))) /\
  forall path content,
    ~ In (WriteFile path content)
         (fst (main Str.lower_ascii Sample.fs Sample.open_ok Sample.write_ok
                 Sample.gone_args)).
Proof.
  apply (failed_run_writes_nothing Str.lower_ascii Sample.fs Sample.open_ok
           Sample.write_ok Sample.gone_args).
  vm_compute. reflexivity.
Defined.


Example sample_total_lines :
  str_of_nat
    (S (length (walk Str.lower_ascii (main_generator Sample.file_args)
                  Sample.root "" 0 Sample.root))) = "9".
Proof. vm_compute. reflexivity. Qed.

Lemma listing_order_irrelevant_witness :
  generate_tree Str.lower_ascii Sample.default_generator
    (Sample.fs_listed "b.ts" "a.ts") "pair" =
  generate_tree Str.lower_ascii Sample.default_generator
    (Sample.fs_listed "a.ts" "b.ts") "pair".
Proof.
  apply (listing_order_irrelevant Str.lower_ascii Sample.default_generator
           (Sample.fs_listed "b.ts" "a.ts") (Sample.fs_listed "a.ts" "b.ts") "pair"
           (Dir true [("b.ts", File); ("a.ts", File)])
           (Dir true [("a.ts", File); ("b.ts", File)])).
  - reflexivity.
  - reflexivity.
  - reflexivity.
  - reflexivity.
  - apply (reordered_dir true _ [("b.ts", File); ("a.ts", File)]).
    + repeat constructor.
    + apply perm_swap.
Defined.

(** * The recursion limit *)







Example sample_within_limit_output :
  generate_lines_within 4 Str.lower_ascii Sample.default_generator Sample.fs "proj" =
  Ok ["proj/"; "├── lib/"; "│   └── a/"; "│       └── b.ts";
      "├── secret/"; "├── src/"; "│   ├── App.tsx"; "│   └── index.ts";
      "└── README.md"] /\
  generate_lines_within 2 Str.lower_ascii Sample.default_generator Sample.fs "proj" =
  Raise RecursionError.
Proof. split; vm_compute; reflexivity. Qed.
